(** * Filesystem MCP server: access gate, path guard, lister and reader

    A shallow embedding of [filesystem-mcp-server.py].  The request
    handlers are pure functions of the process configuration
    ([MCP_API_KEY], [MCP_BASE_PATH]), the working directory, the codec
    registry and a snapshot of the file system; a raised Python exception
    is an explicit [Raise] result.

    The library functions the handlers call are modelled after their
    CPython behaviour on a POSIX system: [os.path] is [posixpath]
    ([join], [normpath], [abspath]); the file system is a tree of regular
    files and directories, without symbolic links, permissions or change
    during a request; [os.walk] is top-down; the text-mode [open] decodes
    strictly and reads with universal newlines; [base64.b64encode] is the
    RFC 4648 encoding with padding. *)

From Stdlib Require Import List String Ascii NArith ZArith Lia Bool.
From Stdlib.Strings Require Import Byte.
From Stdlib Require Import Permutation DecimalString.
Import ListNotations.

Local Open Scope N_scope.
Local Open Scope list_scope.

(** ** Python values *)

(** A Python [str] is a sequence of Unicode code points. *)
#[warnings="-notation-for-abbreviation"]
Notation codepoint := N (only parsing).
#[warnings="-notation-for-abbreviation"]
Notation str := (list N) (only parsing).

(** A Python [bytes] object. *)
#[warnings="-notation-for-abbreviation"]
Notation bytes := (list byte) (only parsing).

(** [lit "abc"] is the [str] literal ['abc']. *)
Definition lit (s : string) : str := map N_of_ascii (list_ascii_of_string s).

(** [a == b] on [str]. *)
Fixpoint str_eqb (a b : str) : bool :=
  match a, b with
  | [], [] => true
  | x :: a', y :: b' => (x =? y) && str_eqb a' b'
  | _, _ => false
  end.

(** [a == b] on [Optional[str]]. *)
Definition option_str_eqb (a b : option str) : bool :=
  match a, b with
  | Some x, Some y => str_eqb x y
  | None, None => true
  | _, _ => false
  end.

(** Truth value of an optional string: [None] and [''] are falsy. *)
Definition truthy (o : option str) : bool :=
  match o with
  | Some (_ :: _) => true
  | _ => false
  end.

(** [o or default]: the default replaces [None] and ['']. *)
Definition or_default (o : option str) (default : str) : str :=
  match o with
  | Some (c :: s) => c :: s
  | _ => default
  end.

(** [s.startswith(prefix)]. *)
Fixpoint startswith (s prefix : str) : bool :=
  match prefix, s with
  | [], _ => true
  | p :: prefix', c :: s' => (c =? p) && startswith s' prefix'
  | _ :: _, [] => false
  end.

(** [s.endswith(c)] for a single character [c]. *)
Definition endswith_char (s : str) (c : codepoint) : bool :=
  match rev s with
  | x :: _ => x =? c
  | [] => false
  end.

(** [s.split(sep)] for a single-character separator: never empty. *)
Fixpoint split (sep : codepoint) (s : str) : list str :=
  match s with
  | [] => [[]]
  | c :: s' =>
      if c =? sep then [] :: split sep s'
      else match split sep s' with
           | w :: ws => (c :: w) :: ws
           | [] => [[c]]
           end
  end.

(** [sep.join(comps)]. *)
Fixpoint join_sep (sep : codepoint) (comps : list str) : str :=
  match comps with
  | [] => []
  | [w] => w
  | w :: ws => w ++ sep :: join_sep sep ws
  end.

(** ** Exceptions *)

(** The exceptions other than [HTTPException] that the handlers can meet.
    [UnicodeError] stands for an instance of that class itself, which an
    [except UnicodeDecodeError] clause does not catch. *)
Inductive pyerror :=
| UnicodeDecodeError
| UnicodeError
| LookupError
| FileNotFoundError
| NotADirectoryError
| IsADirectoryError
| ValidationError.

(** The [detail] of an [HTTPException]: a literal, the f-string of
    [safe_path] over the configured base path, or [str(e)]. *)
Inductive detail :=
| Text (s : str)
| OutsideOf (base : str)
| StrOf (e : pyerror).

Inductive exn :=
| HTTPException (status_code : Z) (d : detail)
| Error (e : pyerror).

Inductive result (A : Type) :=
| Return (a : A)
| Raise (e : exn).
Arguments Return {A} a.
Arguments Raise {A} e.

Definition bind {A B} (r : result A) (k : A -> result B) : result B :=
  match r with
  | Return a => k a
  | Raise e => Raise e
  end.

Notation "x <- r ;; k" := (bind r (fun x => k))
  (at level 61, r at next level, right associativity).

(** A library call that returns or raises one of its own exceptions. *)
Definition call {A} (r : pyerror + A) : result A :=
  match r with
  | inr a => Return a
  | inl e => Raise (Error e)
  end.

(** [for x in xs: ys.append(f(x))], stopping at the first exception. *)
Fixpoint for_each {A B} (f : A -> result B) (xs : list A) : result (list B) :=
  match xs with
  | [] => Return []
  | x :: xs' => y <- f x ;; ys <- for_each f xs' ;; Return (y :: ys)
  end.

(** The handlers' outer
    [except Exception as e: if isinstance(e, HTTPException): raise e;
     raise HTTPException(status_code=500, detail=str(e))]. *)
Definition except_Exception {A} (r : result A) : result A :=
  match r with
  | Raise (Error e) => Raise (HTTPException 500 (StrOf e))
  | _ => r
  end.

(** ** [posixpath] *)

Definition sep : codepoint := 47. (* '/' *)
Definition dot : str := [46].
Definition dotdot : str := [46; 46].

(** [os.path.join(a, b)]. *)
Definition join (a b : str) : str :=
  if startswith b [sep] then b
  else if match a with [] => true | _ => endswith_char a sep end then a ++ b
  else a ++ sep :: b.

(** The loop of [normpath] over the components, [new_comps] growing at its
    end. *)
Fixpoint normpath_loop (initial_slashes : N) (new_comps comps : list str) : list str :=
  match comps with
  | [] => new_comps
  | comp :: comps' =>
      if str_eqb comp [] || str_eqb comp dot then
        normpath_loop initial_slashes new_comps comps'
      else if negb (str_eqb comp dotdot)
              || ((initial_slashes =? 0) && match new_comps with [] => true | _ => false end)
              || match new_comps with
                 | [] => false
                 | _ => str_eqb (last new_comps []) dotdot
                 end
      then normpath_loop initial_slashes (new_comps ++ [comp]) comps'
      else normpath_loop initial_slashes (removelast new_comps) comps'
  end.

(** [os.path.normpath(path)]. *)
Definition normpath (path : str) : str :=
  match path with
  | [] => dot
  | _ =>
      let initial_slashes :=
        if startswith path [sep] then
          if startswith path [sep; sep] && negb (startswith path [sep; sep; sep])
          then 2 else 1
        else 0 in
      let comps := normpath_loop initial_slashes [] (split sep path) in
      let path' := repeat sep (N.to_nat initial_slashes) ++ join_sep sep comps in
      match path' with [] => dot | _ => path' end
  end.

(** [os.path.abspath(path)] in a process whose working directory is [cwd]. *)
Definition abspath (cwd path : str) : str :=
  normpath (if startswith path [sep] then path else join cwd path).

(** ** Codecs *)

(** A text codec's [decode]: the decoded [str], or the exception it
    raises ([UnicodeDecodeError] for the built-in text encodings). *)
Definition codec := bytes -> pyerror + str.

Definition is_continuation (n : N) : bool := (128 <=? n) && (n <=? 191).

(** Strict UTF-8, as CPython's ['utf-8'] codec decodes with
    [errors='strict']: shortest form only, no surrogates, nothing above
    U+10FFFF. *)
Fixpoint utf_8_decode (s : bytes) : option str :=
  match s with
  | [] => Some []
  | b0 :: rest =>
      let n0 := to_N b0 in
      if n0 <? 128 then option_map (cons n0) (utf_8_decode rest)
      else if (194 <=? n0) && (n0 <=? 223) then
        match rest with
        | b1 :: rest1 =>
            let n1 := to_N b1 in
            if is_continuation n1
            then option_map (cons ((n0 - 192) * 64 + (n1 - 128))) (utf_8_decode rest1)
            else None
        | _ => None
        end
      else if (224 <=? n0) && (n0 <=? 239) then
        match rest with
        | b1 :: b2 :: rest2 =>
            let n1 := to_N b1 in
            let n2 := to_N b2 in
            if ((if n0 =? 224 then 160 else 128) <=? n1)
               && (n1 <=? (if n0 =? 237 then 159 else 191))
               && is_continuation n2
            then option_map
                   (cons ((n0 - 224) * 4096 + (n1 - 128) * 64 + (n2 - 128)))
                   (utf_8_decode rest2)
            else None
        | _ => None
        end
      else if (240 <=? n0) && (n0 <=? 244) then
        match rest with
        | b1 :: b2 :: b3 :: rest3 =>
            let n1 := to_N b1 in
            let n2 := to_N b2 in
            let n3 := to_N b3 in
            if ((if n0 =? 240 then 144 else 128) <=? n1)
               && (n1 <=? (if n0 =? 244 then 143 else 191))
               && is_continuation n2 && is_continuation n3
            then option_map
                   (cons ((n0 - 240) * 262144 + (n1 - 128) * 4096
                          + (n2 - 128) * 64 + (n3 - 128)))
                   (utf_8_decode rest3)
            else None
        | _ => None
        end
      else None
  end.

Definition ascii_decode (s : bytes) : option str :=
  if forallb (fun b => to_N b <? 128) s then Some (map to_N s) else None.

Definition latin_1_decode (s : bytes) : option str := Some (map to_N s).

Definition strict (decode : bytes -> option str) : codec :=
  fun s => match decode s with
           | Some text => inr text
           | None => inl UnicodeDecodeError
           end.

(** A codec registry with three of CPython's built-in text encodings, under
    their usual spellings; any other name is unknown to it.  CPython's own
    registry also knows these codecs under aliases and under names that
    differ in case or punctuation (['utf_8'], ['U8'], ['Latin1']); the
    handlers take the registry as a parameter, and this one serves the
    examples, on names where the two agree. *)
Definition builtin_codecs (name : str) : option codec :=
  if str_eqb name (lit "utf-8") || str_eqb name (lit "utf8")
     || str_eqb name (lit "UTF-8")
  then Some (strict utf_8_decode)
  else if str_eqb name (lit "ascii") then Some (strict ascii_decode)
  else if str_eqb name (lit "latin-1") then Some (strict latin_1_decode)
  else None.

(** CPython's ['undefined'] codec: every decoding raises a plain
    [UnicodeError], as the decoders of ['punycode'] and ['idna'] do on
    input that is invalid for them. *)
Definition undefined_decode : codec := fun _ => inl UnicodeError.

(** The registry above, with ['undefined']. *)
Definition builtin_codecs_with_undefined (name : str) : option codec :=
  if str_eqb name (lit "undefined") then Some undefined_decode
  else builtin_codecs name.

(** What [read()] does to decoded text when the file was opened in text
    mode with [newline=None]: ['\r\n'] and a lone ['\r'] become ['\n']. *)
Fixpoint universal_newlines (s : str) : str :=
  match s with
  | [] => []
  | c :: rest =>
      if c =? 13 then
        10 :: match rest with
              | d :: rest' =>
                  if d =? 10 then universal_newlines rest'
                  else universal_newlines rest
              | [] => []
              end
      else c :: universal_newlines rest
  end.

(** ** Base64 *)

Definition table_b2a_base64 : bytes :=
  list_byte_of_string
    "ABCDEFGHIJKLMNOPQRSTUVWXYZabcdefghijklmnopqrstuvwxyz0123456789+/".

Definition BASE64_PAD : byte := "="%byte.

Definition b2a (sextet : N) : byte :=
  nth (N.to_nat sextet) table_b2a_base64 BASE64_PAD.

(** [base64.b64encode(s)]: three bytes become four characters of the
    alphabet, a last group of one or two bytes is padded with ['=']. *)
Fixpoint b64encode (s : bytes) : bytes :=
  match s with
  | [] => []
  | [a] =>
      let x := to_N a in
      [b2a (x / 4); b2a (x mod 4 * 16); BASE64_PAD; BASE64_PAD]
  | [a; b] =>
      let x := to_N a in
      let y := to_N b in
      [b2a (x / 4); b2a (x mod 4 * 16 + y / 16); b2a (y mod 16 * 4); BASE64_PAD]
  | a :: b :: c :: rest =>
      let x := to_N a in
      let y := to_N b in
      let z := to_N c in
      b2a (x / 4) :: b2a (x mod 4 * 16 + y / 16)
        :: b2a (y mod 16 * 4 + z / 64) :: b2a (z mod 64) :: b64encode rest
  end.

(** The position of a character in the base64 alphabet. *)
Fixpoint a2b_from (i : N) (table : bytes) (c : codepoint) : option N :=
  match table with
  | [] => None
  | t :: table' => if to_N t =? c then Some i else a2b_from (i + 1) table' c
  end.

Definition a2b (c : codepoint) : option N := a2b_from 0 table_b2a_base64 c.

Definition bytes_of_N (ns : list N) : option bytes :=
  fold_right (fun n acc =>
                match of_N n, acc with
                | Some b, Some bs => Some (b :: bs)
                | _, _ => None
                end) (Some []) ns.

(** A base64 decoder (RFC 4648, padding required), the inverse against
    which the reader's binary answer is measured. *)
Fixpoint b64decode (s : str) : option bytes :=
  match s with
  | [] => Some []
  | c0 :: c1 :: c2 :: c3 :: rest =>
      match a2b c0, a2b c1 with
      | Some s0, Some s1 =>
          if c2 =? 61 then
            if (c3 =? 61) && match rest with [] => true | _ => false end
            then bytes_of_N [s0 * 4 + s1 / 16]
            else None
          else
            match a2b c2 with
            | Some s2 =>
                if c3 =? 61 then
                  match rest with
                  | [] => bytes_of_N [s0 * 4 + s1 / 16; s1 mod 16 * 16 + s2 / 4]
                  | _ => None
                  end
                else
                  match a2b c3, b64decode rest with
                  | Some s3, Some tail =>
                      option_map (fun group => group ++ tail)
                        (bytes_of_N [s0 * 4 + s1 / 16; s1 mod 16 * 16 + s2 / 4;
                                     s2 mod 4 * 64 + s3])
                  | _, _ => None
                  end
            | None => None
            end
      | _, _ => None
      end
  | _ => None
  end.

(** ** The file system *)

(** [os.stat_result], as far as the server reads it.  [st_mtime] is a
    float in Python; it is kept as an integer count of clock ticks. *)
Record stat_result := { st_size : Z; st_mtime : Z }.

(** A snapshot of a file system of regular files and directories.  The
    entries of a directory are kept in the order in which the system
    enumerates them. *)
#[warnings="-register-all"]
Inductive node :=
| File (data : bytes) (mtime : Z)
| Dir (st : stat_result) (entries : list (str * node)).

Definition is_dir_node (n : node) : bool :=
  match n with
  | Dir _ _ => true
  | File _ _ => false
  end.

Definition stat_node (n : node) : stat_result :=
  match n with
  | File data mtime => {| st_size := Z.of_nat (List.length data); st_mtime := mtime |}
  | Dir st _ => st
  end.

Definition lookup_entry (name : str) (entries : list (str * node)) : option node :=
  option_map snd (find (fun e => str_eqb (fst e) name) entries).

(** Path resolution walks the components from the root directory; the
    state is the node reached and its ancestors, nearest first. *)
Definition namei_state := (list node * node)%type.

Definition namei_step (st : namei_state) (comp : str) : option namei_state :=
  match snd st with
  | File _ _ => None
  | Dir _ entries =>
      if str_eqb comp [] || str_eqb comp dot then Some st
      else if str_eqb comp dotdot then
        match fst st with
        | [] => Some st
        | parent :: above => Some (above, parent)
        end
      else option_map (fun child => (snd st :: fst st, child))
                      (lookup_entry comp entries)
  end.

Fixpoint namei (st : namei_state) (comps : list str) : option namei_state :=
  match comps with
  | [] => Some st
  | comp :: comps' =>
      match namei_step st comp with
      | Some st' => namei st' comps'
      | None => None
      end
  end.

(** The path along which the resolution goes down from the root: the path
    itself when absolute, else the path after the working directory. *)
Definition from_root (cwd path : str) : str :=
  if startswith path [sep] then path else join cwd path.

(** The node a path names, if any, for a process whose working directory
    is [cwd]; the empty path names nothing. *)
Definition resolve (fs : node) (cwd path : str) : option node :=
  match path with
  | [] => None
  | _ => option_map snd (namei ([], fs) (split sep (from_root cwd path)))
  end.

(** [os.walk(top)] from the node that [top] names: top-down, one triple
    [(dirpath, dirnames, filenames)] for the directory, then the walks of
    its subdirectories in turn.  A [top] that cannot be scanned yields
    nothing. *)
Definition walk_dirs (entries : list (str * node)) : list str :=
  map fst (filter (fun e => is_dir_node (snd e)) entries).

Definition walk_nondirs (entries : list (str * node)) : list str :=
  map fst (filter (fun e => negb (is_dir_node (snd e))) entries).

Fixpoint walk_node (top : str) (n : node) : list (str * list str * list str) :=
  match n with
  | File _ _ => []
  | Dir _ entries =>
      (top, walk_dirs entries, walk_nondirs entries)
        :: flat_map (fun e =>
                       if is_dir_node (snd e)
                       then walk_node (join top (fst e)) (snd e)
                       else [])
                    entries
  end.

(** ** The tree below a directory

    The descendants of the node at [top], each with its path and name, in
    depth-first order; and their numbers. *)
Fixpoint descendants (top : str) (n : node) : list (str * str * node) :=
  match n with
  | File _ _ => []
  | Dir _ entries =>
      flat_map (fun e =>
                  (join top (fst e), fst e, snd e)
                    :: descendants (join top (fst e)) (snd e))
               entries
  end.

Fixpoint count_files (n : node) : nat :=
  match n with
  | File _ _ => 0
  | Dir _ entries =>
      list_sum (map (fun e => if is_dir_node (snd e) then count_files (snd e)
                              else 1%nat) entries)
  end.

Fixpoint count_dirs (n : node) : nat :=
  match n with
  | File _ _ => 0
  | Dir _ entries =>
      list_sum (map (fun e => if is_dir_node (snd e) then S (count_dirs (snd e))
                              else 0%nat) entries)
  end.

(** A name a directory entry can have: not empty, not [.] or [..], and
    without a slash. *)
Definition valid_name (name : str) : bool :=
  negb (str_eqb name []) && negb (str_eqb name dot)
  && negb (str_eqb name dotdot) && forallb (fun c => negb (c =? sep)) name.

Fixpoint distinct (names : list str) : bool :=
  match names with
  | [] => true
  | name :: names' => negb (existsb (str_eqb name) names') && distinct names'
  end.

(** A well-formed tree: in every directory the names are valid and
    pairwise distinct. *)
Fixpoint well_formed (n : node) : bool :=
  match n with
  | File _ _ => true
  | Dir _ entries =>
      distinct (map fst entries)
      && forallb (fun e => valid_name (fst e) && well_formed (snd e)) entries
  end.

(** ** Request and response models *)

Module FileRequest.
Record t := { path : str; encoding : option str }.
End FileRequest.

Module FileListRequest.
Record t := { path : str; recursive : option bool }.
End FileListRequest.

Module FileInfo.
Record t := {
  name : str;
  path : str;
  is_dir : bool;
  size : option Z;
  modified : option str
}.
End FileInfo.

Module FileListResponse.
Record t := { files : list FileInfo.t }.
End FileListResponse.

Module FileContentResponse.
Record t := { content : str; encoding : str }.
End FileContentResponse.

(** The [FileInfo] that describes a descendant found at [path] under the
    name [name]. *)
Definition info_of (validate_modified : Z -> option str)
    (d : str * str * node) : FileInfo.t :=
  let '(path, name, n) := d in
  {| FileInfo.name := name; FileInfo.path := path;
     FileInfo.is_dir := is_dir_node n;
     FileInfo.size := if is_dir_node n then None else Some (st_size (stat_node n));
     FileInfo.modified := validate_modified (st_mtime (stat_node n)) |}.

(** ** A sample file system

    [/data] holds a text file, a binary file and a subdirectory; [/data2]
    is a sibling of [/data] whose name extends it. *)

Definition at_time (t : Z) : stat_result := {| st_size := 4096; st_mtime := t |}.

Definition sample_fs : node :=
  Dir (at_time 100)
    [ (lit "data",
       Dir (at_time 110)
         [ (lit "hello.txt", File (list_byte_of_string "hello" ++ [x0a]) 111);
           (lit "sub",
            Dir (at_time 112)
              [ (lit "deep", Dir (at_time 113) []);
                (lit "crlf.txt", File [x61; x0d; x0a; x62] 114) ]);
           (lit "blob.bin", File [xff; x00; x10] 115) ]);
      (lit "data2",
       Dir (at_time 120)
         [ (lit "secret", File (list_byte_of_string "top secret") 121) ]) ].

(** Two behaviours of the [FileInfo] validation on a number given for
    [modified]: coercion to the text that [str()] gives for the float (for
    a whole number of seconds, its digits and [.0]), as pydantic 1.x does,
    and rejection, as pydantic 2.x does. *)
Definition coerce_number (t : Z) : option str :=
  Some (lit (NilZero.string_of_int (Z.to_int t)) ++ lit ".0").

Definition reject_number (t : Z) : option str := None.

(** ** The server *)

Section Server.

(** The process configuration, read once from the environment. *)
Variable MCP_API_KEY : option str.
Variable MCP_BASE_PATH : option str.

(** [os.getcwd()]. *)
Variable getcwd : str.

(** The codec registry consulted by the text-mode [open]: [None] for an
    unknown encoding name. *)
Variable codecs_lookup : str -> option codec.

(** [FileInfo.modified] is declared [Optional[str]] and receives the
    float [st_mtime]; what the model validation makes of a number given
    for a string field depends on the pydantic in use, so it is a
    parameter: the string it is coerced to, or [None] when validation
    rejects it. *)
Variable validate_modified : Z -> option str.

(** The file system at the time of the request. *)
Variable fs : node.

Definition get_api_key (api_key : option str) : result (option str) :=
  if negb (truthy MCP_API_KEY) then Return None
  else if truthy api_key && option_str_eqb api_key MCP_API_KEY
  then Return api_key
  else Raise (HTTPException 403 (Text (lit "Invalid API key"))).

Definition safe_path (path : str) : result str :=
  let abs_path := abspath getcwd path in
  match MCP_BASE_PATH with
  | Some (c :: base) =>
      let base_path := abspath getcwd (c :: base) in
      if negb (startswith abs_path base_path)
      then Raise (HTTPException 403 (OutsideOf (c :: base)))
      else Return abs_path
  | _ => Return abs_path
  end.

Definition os_path_exists (path : str) : bool :=
  match resolve fs getcwd path with
  | Some _ => true
  | None => false
  end.

Definition os_path_isdir (path : str) : bool :=
  match resolve fs getcwd path with
  | Some n => is_dir_node n
  | None => false
  end.

Definition os_stat (path : str) : result stat_result :=
  match resolve fs getcwd path with
  | Some n => Return (stat_node n)
  | None => Raise (Error FileNotFoundError)
  end.

Definition os_listdir (path : str) : result (list str) :=
  match resolve fs getcwd path with
  | Some (Dir _ entries) => Return (map fst entries)
  | Some (File _ _) => Raise (Error NotADirectoryError)
  | None => Raise (Error FileNotFoundError)
  end.

Definition os_walk (top : str) : list (str * list str * list str) :=
  match resolve fs getcwd top with
  | Some n => walk_node top n
  | None => []
  end.

(** [open(path, "r", encoding=encoding)] followed by [read()].  A name
    that the registry does not know raises [LookupError]; the [ValueError]
    that CPython raises instead for a name with a NUL character has the
    same fate in [read_file], a 500, and is not told apart. *)
Definition open_r_read (path encoding : str) : result str :=
  match resolve fs getcwd path with
  | None => Raise (Error FileNotFoundError)
  | Some (Dir _ _) => Raise (Error IsADirectoryError)
  | Some (File data _) =>
      match codecs_lookup encoding with
      | None => Raise (Error LookupError)
      | Some decode => text <- call (decode data) ;; Return (universal_newlines text)
      end
  end.

(** [open(path, "rb")] followed by [read()]. *)
Definition open_rb_read (path : str) : result bytes :=
  match resolve fs getcwd path with
  | None => Raise (Error FileNotFoundError)
  | Some (Dir _ _) => Raise (Error IsADirectoryError)
  | Some (File data _) => Return data
  end.

(** The [FileInfo(...)] constructor call with [modified=st_mtime]. *)
Definition FileInfo_new (name path : str) (is_dir : bool) (size : option Z)
    (mtime : Z) : result FileInfo.t :=
  match validate_modified mtime with
  | Some modified =>
      Return {| FileInfo.name := name; FileInfo.path := path;
                FileInfo.is_dir := is_dir; FileInfo.size := size;
                FileInfo.modified := Some modified |}
  | None => Raise (Error ValidationError)
  end.

(** Body of [for dir_name in dirs]. *)
Definition dir_info (root dir_name : str) : result FileInfo.t :=
  let dir_path := join root dir_name in
  stat <- os_stat dir_path ;;
  FileInfo_new dir_name dir_path true None (st_mtime stat).

(** Body of [for file_name in filenames]. *)
Definition file_info (root file_name : str) : result FileInfo.t :=
  let file_path := join root file_name in
  stat <- os_stat file_path ;;
  FileInfo_new file_name file_path false (Some (st_size stat)) (st_mtime stat).

(** Body of [for root, dirs, filenames in os.walk(path)]. *)
Definition walk_infos (triple : str * list str * list str)
    : result (list FileInfo.t) :=
  let '(root, dirs, filenames) := triple in
  dir_infos <- for_each (dir_info root) dirs ;;
  file_infos <- for_each (file_info root) filenames ;;
  Return (dir_infos ++ file_infos).

(** Body of [for item in items] of the non-recursive branch. *)
Definition item_info (path item : str) : result FileInfo.t :=
  let item_path := join path item in
  let is_dir := os_path_isdir item_path in
  stat <- os_stat item_path ;;
  FileInfo_new item item_path is_dir
    (if is_dir then None else Some (st_size stat)) (st_mtime stat).

(** The list [files] that [list_files] fills, by either branch. *)
Definition collect_files (path : str) (recursive : option bool)
    : result (list FileInfo.t) :=
  match recursive with
  | Some true =>
      chunks <- for_each walk_infos (os_walk path) ;;
      Return (List.concat chunks)
  | _ =>
      items <- os_listdir path ;;
      for_each (item_info path) items
  end.

Definition list_files (request : FileListRequest.t) : result FileListResponse.t :=
  except_Exception
    (path <- safe_path (FileListRequest.path request) ;;
     if negb (os_path_exists path)
     then Raise (HTTPException 404 (Text (lit "Path not found")))
     else
       files <- collect_files path (FileListRequest.recursive request) ;;
       Return {| FileListResponse.files := files |}).

Definition read_file (request : FileRequest.t) : result FileContentResponse.t :=
  except_Exception
    (path <- safe_path (FileRequest.path request) ;;
     if negb (os_path_exists path)
     then Raise (HTTPException 404 (Text (lit "File not found")))
     else if os_path_isdir path
     then Raise (HTTPException 400 (Text (lit "Cannot read directory")))
     else
       let encoding := or_default (FileRequest.encoding request) (lit "utf-8") in
       match
         content <- open_r_read path encoding ;;
         Return {| FileContentResponse.content := content;
                   FileContentResponse.encoding := encoding |}
       with
       | Raise (Error UnicodeDecodeError) =>
           binary_content <- open_rb_read path ;;
           base64_content <- call (strict ascii_decode (b64encode binary_content)) ;;
           Return {| FileContentResponse.content := base64_content;
                     FileContentResponse.encoding := lit "base64" |}
       | r => r
       end).

End Server.

(** ** Observations on results *)

Definition allowed {A} (r : result A) : bool :=
  match r with
  | Return _ => true
  | Raise _ => false
  end.

(** The HTTP status a raised [HTTPException] is answered with. *)
Definition status_code_of {A} (r : result A) : option Z :=
  match r with
  | Raise (HTTPException status_code _) => Some status_code
  | _ => None
  end.

(** The containment the path guard is documented to enforce, read on
    path components: every component of the root, in order, is the
    corresponding component of the candidate. *)
Definition components (path : str) : list str :=
  filter (fun comp => negb (str_eqb comp [])) (split sep path).

Fixpoint components_prefix (root candidate : list str) : bool :=
  match root, candidate with
  | [], _ => true
  | r :: root', c :: candidate' => str_eqb r c && components_prefix root' candidate'
  | _ :: _, [] => false
  end.

Definition contained_in (root candidate : str) : bool :=
  components_prefix (components root) (components candidate).

(** The invariant of a [FileInfo]: a size exactly when not a directory. *)
Definition size_iff_file (info : FileInfo.t) : Prop :=
  FileInfo.size info <> None <-> FileInfo.is_dir info = false.

(** The prefix that [join] puts before a name. *)
Definition base_of (top : str) : str :=
  match top with
  | [] => []
  | _ => if endswith_char top sep then top else top ++ [sep]
  end.

(** ** The routes

    FastAPI resolves the dependency [get_api_key] from the request header
    before it calls the handler of a route; an exception of the dependency
    is the answer. *)
Definition read_root (MCP_API_KEY api_key : option str) : result (list (str * str)) :=
  _ <- get_api_key MCP_API_KEY api_key ;;
  Return [(lit "status", lit "Filesystem MCP server is running")].

Definition POST_list (MCP_API_KEY MCP_BASE_PATH : option str) (getcwd : str)
    (validate_modified : Z -> option str) (fs : node)
    (api_key : option str) (request : FileListRequest.t)
    : result FileListResponse.t :=
  _ <- get_api_key MCP_API_KEY api_key ;;
  list_files MCP_BASE_PATH getcwd validate_modified fs request.

Definition POST_read (MCP_API_KEY MCP_BASE_PATH : option str) (getcwd : str)
    (codecs_lookup : str -> option codec) (fs : node)
    (api_key : option str) (request : FileRequest.t)
    : result FileContentResponse.t :=
  _ <- get_api_key MCP_API_KEY api_key ;;
  read_file MCP_BASE_PATH getcwd codecs_lookup fs request.

(** A canonical absolute path: one or two slashes, then names joined by
    single slashes, none of them empty, [.] or [..]. *)
Definition canonical (path : str) : Prop :=
  exists (k : nat) (comps : list str),
    (k = 1 \/ k = 2)%nat
    /\ forallb valid_name comps = true
    /\ path = repeat sep k ++ join_sep sep comps.

(** The [FileInfo] of the entry [e] of the directory at [top]. *)
Definition entry_info (validate_modified : Z -> option str) (top : str)
    (e : str * node) : FileInfo.t :=
  info_of validate_modified (join top (fst e), fst e, snd e).

(** * Properties *)

(** ** The library models on examples *)

Example abspath_dotdot :
  abspath (lit "/srv/app") (lit "../data/./x//y/..") = lit "/srv/data/x".
Proof. reflexivity. Qed.

Example abspath_root_parent : abspath (lit "/srv") (lit "/../..") = lit "/".
Proof. reflexivity. Qed.

Example abspath_two_slashes : abspath (lit "/srv") (lit "//a/b/") = lit "//a/b".
Proof. reflexivity. Qed.

Example b64encode_Man : map to_N (b64encode (list_byte_of_string "Man")) = lit "TWFu".
Proof. reflexivity. Qed.

Example b64encode_pad : map to_N (b64encode (list_byte_of_string "light w")) = lit "bGlnaHQgdw==".
Proof. reflexivity. Qed.

Example b64decode_pad : b64decode (lit "bGlnaHQgd28=") = Some (list_byte_of_string "light wo").
Proof. reflexivity. Qed.

Example b64encode_rfc4648 :
  map (fun s => map to_N (b64encode (list_byte_of_string s)))
      ["f"; "fo"; "foo"; "foob"; "fooba"; "foobar"]%string
  = map lit ["Zg=="; "Zm8="; "Zm9v"; "Zm9vYg=="; "Zm9vYmE="; "Zm9vYmFy"]%string.
Proof. reflexivity. Qed.

Example b64decode_rejects_short : b64decode (lit "Zm9") = None.
Proof. reflexivity. Qed.

Example universal_newlines_mixed :
  universal_newlines [97; 13; 10; 98; 13; 99; 10; 13] = [97; 10; 98; 10; 99; 10; 10].
Proof. reflexivity. Qed.

Example join_absolute_name : join (lit "/data") (lit "/etc") = lit "/etc".
Proof. reflexivity. Qed.

Example join_after_slash : join (lit "/") (lit "data") = lit "/data".
Proof. reflexivity. Qed.

Example resolve_parent :
  resolve sample_fs (lit "/srv") (lit "/data/sub/../blob.bin")
  = Some (File [xff; x00; x10] 115).
Proof. reflexivity. Qed.

Example resolve_through_file :
  resolve sample_fs (lit "/srv") (lit "/data/blob.bin/") = None.
Proof. reflexivity. Qed.

Example resolve_relative :
  resolve sample_fs (lit "/data") (lit "sub/deep") = Some (Dir (at_time 113) []).
Proof. reflexivity. Qed.

Example os_walk_data :
  os_walk (lit "/srv") sample_fs (lit "/data")
  = [ (lit "/data", [lit "sub"], [lit "hello.txt"; lit "blob.bin"]);
      (lit "/data/sub", [lit "deep"], [lit "crlf.txt"]);
      (lit "/data/sub/deep", [], []) ].
Proof. reflexivity. Qed.

Example utf_8_decode_euro :
  utf_8_decode ["a"%byte; xe2; x82; xac] = Some [97; 8364].
Proof. reflexivity. Qed.

Example utf_8_decode_overlong : utf_8_decode [xc0; x80] = None.
Proof. reflexivity. Qed.

Example utf_8_decode_surrogate : utf_8_decode [xed; xa0; x80] = None.
Proof. reflexivity. Qed.

(** ** Strings *)

Lemma str_eqb_refl (a : str) : str_eqb a a = true.
Proof.
  induction a as [|x a IH]; simpl; [reflexivity|].
  now rewrite N.eqb_refl, IH.
Qed.

Lemma str_eqb_eq (a b : str) : str_eqb a b = true <-> a = b.
Proof.
  split.
  - revert b; induction a as [|x a IH]; intros [|y b]; simpl; try discriminate; auto.
    intros H; apply andb_prop in H as [Hxy Hab].
    apply N.eqb_eq in Hxy; subst; f_equal; auto.
  - intros ->; apply str_eqb_refl.
Qed.

Lemma str_eqb_neq (a b : str) : str_eqb a b = false <-> a <> b.
Proof.
  rewrite <- str_eqb_eq. destruct (str_eqb a b); split; congruence.
Qed.

(** ** The access gate *)

(** C9: an empty configured secret disables the gate: every request is
    allowed, whatever its credential header, exactly as when no secret is
    configured. *)
Theorem get_api_key_empty_secret (api_key : option str) :
  get_api_key (Some []) api_key = Return None
  /\ get_api_key (Some []) api_key = get_api_key None api_key.
Proof. split; reflexivity. Qed.

(** C2, as stated, fails for the empty secret: it is a configured secret,
    yet a request with a different credential is allowed. *)
Lemma get_api_key_empty_secret_allows_wrong_key :
  ~ (allowed (get_api_key (Some []) (Some (lit "wrong"))) = true
     <-> Some (lit "wrong") = Some ([] : str)).
Proof.
  intros [H _]. specialize (H eq_refl). discriminate H.
Qed.

(** C2 (amended): with no secret configured every request is allowed; with
    a non-empty secret configured a request is allowed if and only if its
    credential header is present and equal to the secret, and is otherwise
    refused with status 403. *)
Theorem get_api_key_gate (secret api_key : option str) :
  secret <> Some [] ->
  (secret = None -> get_api_key secret api_key = Return None)
  /\ (secret <> None ->
      (allowed (get_api_key secret api_key) = true <-> api_key = secret)
      /\ (api_key = secret -> get_api_key secret api_key = Return api_key)
      /\ (api_key <> secret ->
          get_api_key secret api_key
          = Raise (HTTPException 403 (Text (lit "Invalid API key"))))).
Proof.
  intros Hne. split; [intros ->; reflexivity|].
  intros Hsome.
  destruct secret as [[|c k]|]; try congruence. clear Hne Hsome.
  assert (Heq : api_key = Some (c :: k) ->
                get_api_key (Some (c :: k)) api_key = Return api_key).
  { intros ->. unfold get_api_key. simpl truthy. cbn [negb andb option_str_eqb].
    now rewrite str_eqb_refl. }
  assert (Hneq : api_key <> Some (c :: k) ->
                 get_api_key (Some (c :: k)) api_key
                 = Raise (HTTPException 403 (Text (lit "Invalid API key")))).
  { intros Hd. unfold get_api_key. simpl truthy. cbn [negb].
    destruct api_key as [[|d k']|]; try reflexivity.
    simpl truthy. cbn [andb option_str_eqb].
    destruct (str_eqb (d :: k') (c :: k)) eqn:E; [|reflexivity].
    apply str_eqb_eq in E. congruence. }
  split; [|split]; auto.
  split.
  - intros Hall.
    destruct api_key as [a|].
    + destruct (str_eqb a (c :: k)) eqn:E.
      * apply str_eqb_eq in E. now subst.
      * apply str_eqb_neq in E. rewrite Hneq in Hall by congruence. discriminate.
    + rewrite Hneq in Hall by discriminate. discriminate.
  - intros H. now rewrite (Heq H).
Qed.

Lemma get_api_key_gate_witness :
  (allowed (get_api_key (Some (lit "s3cret")) (Some (lit "s3cret"))) = true
   <-> Some (lit "s3cret") = Some (lit "s3cret"))
  /\ get_api_key (Some (lit "s3cret")) None
     = Raise (HTTPException 403 (Text (lit "Invalid API key"))).
Proof.
  split.
  - apply (get_api_key_gate (Some (lit "s3cret")) (Some (lit "s3cret")));
      discriminate.
  - apply (get_api_key_gate (Some (lit "s3cret")) None); discriminate.
Defined.

(** ** Results and loops *)

Lemma bind_Return {A B} (r : result A) (k : A -> result B) (b : B) :
  bind r k = Return b -> exists a, r = Return a /\ k a = Return b.
Proof. destruct r as [a|e]; simpl; [eauto|discriminate]. Qed.

Lemma status_code_of_bind {A B} (r : result A) (k : A -> result B) (code : Z) :
  status_code_of (bind r k) = Some code ->
  status_code_of r = Some code
  \/ exists a, r = Return a /\ status_code_of (k a) = Some code.
Proof. destruct r as [a|e]; simpl; eauto. Qed.

Lemma for_each_no_status {A B} (f : A -> result B) (xs : list A) :
  (forall x, status_code_of (f x) = None) ->
  status_code_of (for_each f xs) = None.
Proof.
  intros Hf. induction xs as [|x xs IH]; simpl; [reflexivity|].
  specialize (Hf x). destruct (f x) as [y|e]; simpl; [|exact Hf].
  destruct (for_each f xs) as [ys|e]; simpl; [reflexivity|exact IH].
Qed.

Lemma for_each_Forall {A B} (P : B -> Prop) (f : A -> result B) :
  (forall x y, f x = Return y -> P y) ->
  forall xs ys, for_each f xs = Return ys -> Forall P ys.
Proof.
  intros Hf. induction xs as [|x xs IH]; simpl; intros ys H.
  - injection H as <-. constructor.
  - apply bind_Return in H as (y & Hy & H).
    apply bind_Return in H as (ys' & Hys & H).
    injection H as <-. constructor; eauto.
Qed.

Lemma except_Exception_status {A} (r : result A) (code : Z) :
  code <> 500%Z ->
  status_code_of (except_Exception r) = Some code ->
  status_code_of r = Some code.
Proof.
  intros Hcode. destruct r as [a|[c d|e]]; simpl; auto.
  intros [= H]. now elim Hcode.
Qed.

Lemma os_stat_no_status (cwd : str) (fs : node) (path : str) :
  status_code_of (os_stat cwd fs path) = None.
Proof. unfold os_stat. now destruct (resolve fs cwd path). Qed.

Lemma os_listdir_no_status (cwd : str) (fs : node) (path : str) :
  status_code_of (os_listdir cwd fs path) = None.
Proof. unfold os_listdir. now destruct (resolve fs cwd path) as [[|]|]. Qed.

Lemma FileInfo_new_no_status validate_modified name path is_dir size mtime :
  status_code_of (FileInfo_new validate_modified name path is_dir size mtime) = None.
Proof. unfold FileInfo_new. now destruct (validate_modified mtime). Qed.

Lemma stat_then_info_no_status cwd fs path (k : stat_result -> result FileInfo.t) :
  (forall st, status_code_of (k st) = None) ->
  status_code_of (bind (os_stat cwd fs path) k) = None.
Proof.
  intros Hk. unfold os_stat. destruct (resolve fs cwd path); simpl; auto.
Qed.

Lemma walk_infos_no_status cwd validate_modified fs triple :
  status_code_of (walk_infos cwd validate_modified fs triple) = None.
Proof.
  destruct triple as [[root dirs] files]. unfold walk_infos.
  pose proof (for_each_no_status (dir_info cwd validate_modified fs root) dirs) as Hd.
  pose proof (for_each_no_status (file_info cwd validate_modified fs root) files) as Hf.
  destruct (for_each (dir_info _ _ _ _) dirs) as [ds|e]; simpl.
  - destruct (for_each (file_info _ _ _ _) files) as [fs'|e]; simpl; [reflexivity|].
    apply Hf. intros x. apply stat_then_info_no_status.
    intros st. apply FileInfo_new_no_status.
  - apply Hd. intros x. apply stat_then_info_no_status.
    intros st. apply FileInfo_new_no_status.
Qed.

Lemma item_info_no_status cwd validate_modified fs path item :
  status_code_of (item_info cwd validate_modified fs path item) = None.
Proof.
  apply stat_then_info_no_status. intros st. apply FileInfo_new_no_status.
Qed.

(** ** The path guard *)

Lemma safe_path_unconfigured (cwd path : str) :
  safe_path None cwd path = Return (abspath cwd path)
  /\ safe_path (Some []) cwd path = Return (abspath cwd path).
Proof. split; reflexivity. Qed.

(** What the guard decides when a root is configured: a raw prefix test
    on the two canonical strings. *)
Lemma safe_path_configured (c : codepoint) (base cwd path : str) :
  safe_path (Some (c :: base)) cwd path
  = if startswith (abspath cwd path) (abspath cwd (c :: base))
    then Return (abspath cwd path)
    else Raise (HTTPException 403 (OutsideOf (c :: base))).
Proof.
  unfold safe_path.
  now destruct (startswith (abspath cwd path) (abspath cwd (c :: base))).
Qed.

Lemma safe_path_status (base : option str) (cwd path : str) :
  status_code_of (safe_path base cwd path) = None
  \/ status_code_of (safe_path base cwd path) = Some 403%Z.
Proof.
  destruct base as [[|c base]|]; try (left; reflexivity).
  rewrite safe_path_configured.
  destruct (startswith _ _); [left|right]; reflexivity.
Qed.

(** C1: with root [/data] configured, the sibling [/data2/secret] is not
    contained in the root component by component, yet the guard returns
    it instead of raising 403, and the reader hands out the file. *)
Theorem safe_path_admits_sibling_of_root :
  contained_in (lit "/data") (abspath (lit "/srv") (lit "/data2/secret")) = false
  /\ safe_path (Some (lit "/data")) (lit "/srv") (lit "/data2/secret")
     = Return (lit "/data2/secret")
  /\ read_file (Some (lit "/data")) (lit "/srv") builtin_codecs sample_fs
       {| FileRequest.path := lit "/data2/secret"; FileRequest.encoding := None |}
     = Return {| FileContentResponse.content := lit "top secret";
                 FileContentResponse.encoding := lit "utf-8" |}.
Proof. repeat split; vm_compute; reflexivity. Qed.

Lemma collect_files_no_status cwd validate_modified fs path recursive :
  status_code_of (collect_files cwd validate_modified fs path recursive) = None.
Proof.
  assert (Hflat : status_code_of
                    (items <- os_listdir cwd fs path ;;
                     for_each (item_info cwd validate_modified fs path) items)
                  = None).
  { pose proof (os_listdir_no_status cwd fs path) as Hl.
    destruct (os_listdir cwd fs path) as [items|e]; simpl; [|exact Hl].
    apply for_each_no_status. intros x. apply item_info_no_status. }
  unfold collect_files. destruct recursive as [[|]|]; try exact Hflat.
  pose proof (for_each_no_status (walk_infos cwd validate_modified fs)
                (os_walk cwd fs path)
                (walk_infos_no_status cwd validate_modified fs)) as Hw.
  destruct (for_each _ _) as [chunks|e]; simpl in Hw |- *; [reflexivity|].
  exact Hw.
Qed.

(** With no root configured neither handler ever answers 403. *)
Lemma no_root_never_forbidden
    (cwd : str) (codecs_lookup : str -> option codec)
    (validate_modified : Z -> option str) (fs : node) :
  (forall request,
     status_code_of (list_files None cwd validate_modified fs request)
     <> Some 403%Z)
  /\ (forall request,
        status_code_of (read_file None cwd codecs_lookup fs request)
        <> Some 403%Z).
Proof.
  split; intros request H.
  - unfold list_files in H. apply except_Exception_status in H; [|discriminate].
    cbn [safe_path bind] in H.
    destruct (os_path_exists cwd fs _); cbn [negb] in H; [|discriminate].
    pose proof (collect_files_no_status cwd validate_modified fs
                  (abspath cwd (FileListRequest.path request))
                  (FileListRequest.recursive request)) as Hc.
    destruct (collect_files _ _ _ _ _) as [files|e]; simpl in Hc, H; congruence.
  - unfold read_file in H. apply except_Exception_status in H; [|discriminate].
    cbn [safe_path bind] in H.
    destruct (os_path_exists cwd fs _); cbn [negb] in H; [|discriminate].
    destruct (os_path_isdir cwd fs _); [discriminate|].
    unfold open_r_read, open_rb_read in H.
    destruct (resolve fs cwd _) as [[data mtime|st entries]|]; try discriminate.
    destruct (codecs_lookup _) as [decode|]; [|discriminate].
    destruct (decode data) as [[]|text]; simpl in H; try discriminate.
    destruct (strict ascii_decode (b64encode data)); discriminate.
Qed.

(** ** Base64 *)

Lemma bytes_ind3 (P : list byte -> Prop) :
  P [] ->
  (forall a, P [a]) ->
  (forall a b, P [a; b]) ->
  (forall a b c rest, P rest -> P (a :: b :: c :: rest)) ->
  forall s, P s.
Proof.
  intros H0 H1 H2 H3. fix IH 1.
  intros [|a [|b [|c rest]]];
    [apply H0 | apply H1 | apply H2 | apply H3, IH].
Qed.

Lemma b2a_ascii (i : N) : (to_N (b2a i) <? 128) = true.
Proof.
  unfold b2a.
  assert (Htable : Forall (fun b => (to_N b <? 128) = true) table_b2a_base64).
  { apply Forall_forall. apply forallb_forall. vm_compute. reflexivity. }
  destruct (nth_in_or_default (N.to_nat i) table_b2a_base64 BASE64_PAD) as [Hin | ->].
  - rewrite Forall_forall in Htable. now apply Htable.
  - reflexivity.
Qed.

Lemma b64encode_ascii (s : bytes) :
  forallb (fun b => to_N b <? 128) (b64encode s) = true.
Proof.
  induction s as [|a|a b|a b c rest IH] using bytes_ind3;
    cbn [b64encode forallb]; rewrite ?b2a_ascii; auto.
Qed.

(** The ASCII decoding of base64 output cannot fail. *)
Lemma ascii_decode_b64encode (s : bytes) :
  strict ascii_decode (b64encode s) = inr (map to_N (b64encode s)).
Proof. unfold strict, ascii_decode. now rewrite b64encode_ascii. Qed.

Lemma a2b_b2a_nat (n : nat) :
  (n < 64)%nat -> a2b (to_N (b2a (N.of_nat n))) = Some (N.of_nat n).
Proof.
  intros Hn.
  do 64 (destruct n as [|n]; [vm_compute; reflexivity|]).
  lia.
Qed.

Lemma a2b_b2a (i : N) : i < 64 -> a2b (to_N (b2a i)) = Some i.
Proof.
  intros Hi. rewrite <- (N2Nat.id i). apply a2b_b2a_nat. lia.
Qed.

Lemma b2a_not_pad (i : N) : i < 64 -> (to_N (b2a i) =? 61) = false.
Proof.
  intros Hi. apply N.eqb_neq. intros Heq.
  pose proof (a2b_b2a i Hi) as H. rewrite Heq in H. vm_compute in H. discriminate.
Qed.

Ltac Zify.zify_post_hook ::= Z.to_euclidean_division_equations.

Lemma div_add_16 (r u : N) :
  u < 16 -> (r * 16 + u) / 16 = r /\ (r * 16 + u) mod 16 = u.
Proof. lia. Qed.

Lemma div_add_4 (r u : N) :
  u < 4 -> (r * 4 + u) / 4 = r /\ (r * 4 + u) mod 4 = u.
Proof. lia. Qed.

Lemma octet_by_4 (x : N) :
  x <= 255 -> x / 4 < 64 /\ x mod 4 < 4 /\ x / 4 * 4 + x mod 4 = x.
Proof. lia. Qed.

Lemma octet_by_16 (x : N) :
  x <= 255 -> x / 16 < 16 /\ x mod 16 < 16 /\ x / 16 * 16 + x mod 16 = x.
Proof. lia. Qed.

Lemma octet_by_64 (x : N) :
  x <= 255 -> x / 64 < 4 /\ x mod 64 < 64 /\ x / 64 * 64 + x mod 64 = x.
Proof. lia. Qed.

(** The four sextets of a group of three octets, and the octets they
    give back. *)
Lemma sextets_of_octets (x y z : N) :
  x <= 255 -> y <= 255 -> z <= 255 ->
  (x / 4 < 64 /\ x mod 4 * 16 + y / 16 < 64
   /\ y mod 16 * 4 + z / 64 < 64 /\ z mod 64 < 64)
  /\ x / 4 * 4 + (x mod 4 * 16 + y / 16) / 16 = x
  /\ (x mod 4 * 16 + y / 16) mod 16 * 16 + (y mod 16 * 4 + z / 64) / 4 = y
  /\ (y mod 16 * 4 + z / 64) mod 4 * 64 + z mod 64 = z.
Proof.
  intros Hx Hy Hz.
  destruct (octet_by_4 x Hx) as (Hx1 & Hx2 & Hx3).
  destruct (octet_by_16 y Hy) as (Hy1 & Hy2 & Hy3).
  destruct (octet_by_64 z Hz) as (Hz1 & Hz2 & Hz3).
  destruct (div_add_16 (x mod 4) (y / 16) Hy1) as [-> ->].
  destruct (div_add_4 (y mod 16) (z / 64) Hz1) as [-> ->].
  generalize dependent (x / 4). generalize dependent (x mod 4).
  generalize dependent (y / 16). generalize dependent (y mod 16).
  generalize dependent (z / 64). generalize dependent (z mod 64).
  intros. repeat split; lia.
Qed.

Lemma bytes_of_N_to_N (s : bytes) : bytes_of_N (map to_N s) = Some s.
Proof.
  induction s as [|a s IH]; [reflexivity|].
  cbn [map bytes_of_N fold_right]. fold (bytes_of_N (map to_N s)).
  now rewrite of_to_N, IH.
Qed.

Lemma b64decode_group (s0 s1 s2 s3 : N) (rest : str) :
  s0 < 64 -> s1 < 64 -> s2 < 64 -> s3 < 64 ->
  b64decode (to_N (b2a s0) :: to_N (b2a s1) :: to_N (b2a s2) :: to_N (b2a s3) :: rest)
  = match b64decode rest with
    | Some tail =>
        option_map (fun group => group ++ tail)
          (bytes_of_N [s0 * 4 + s1 / 16; s1 mod 16 * 16 + s2 / 4; s2 mod 4 * 64 + s3])
    | None => None
    end.
Proof.
  intros H0 H1 H2 H3. cbn [b64decode].
  now rewrite !a2b_b2a, !b2a_not_pad by assumption.
Qed.

(** Decoding the base64 text of any byte string gives the bytes back. *)
Lemma b64decode_b64encode (s : bytes) :
  b64decode (map to_N (b64encode s)) = Some s.
Proof.
  induction s as [|a|a b|a b c rest IH] using bytes_ind3.
  - reflexivity.
  - pose proof (to_N_bounded a) as Ha.
    destruct (sextets_of_octets (to_N a) 0 0 Ha) as ((S0 & S1 & _) & Hx & _);
      try lia.
    change (0 / 16) with 0 in *. rewrite N.add_0_r in *.
    cbn [b64encode map b64decode].
    rewrite !a2b_b2a by assumption.
    change (to_N BASE64_PAD =? 61) with true. cbn [andb].
    rewrite Hx. change [to_N a] with (map to_N [a]).
    apply bytes_of_N_to_N.
  - pose proof (to_N_bounded a) as Ha. pose proof (to_N_bounded b) as Hb.
    destruct (sextets_of_octets (to_N a) (to_N b) 0 Ha Hb)
      as ((S0 & S1 & S2 & _) & Hx & Hy & _); try lia.
    change (0 / 64) with 0 in *. rewrite N.add_0_r in *.
    cbn [b64encode map b64decode].
    rewrite !a2b_b2a, !b2a_not_pad by assumption.
    change (to_N BASE64_PAD =? 61) with true.
    rewrite Hx, Hy. change [to_N a; to_N b] with (map to_N [a; b]).
    apply bytes_of_N_to_N.
  - pose proof (to_N_bounded a) as Ha. pose proof (to_N_bounded b) as Hb.
    pose proof (to_N_bounded c) as Hc.
    destruct (sextets_of_octets (to_N a) (to_N b) (to_N c) Ha Hb Hc)
      as ((S0 & S1 & S2 & S3) & Hx & Hy & Hz).
    cbn [b64encode map].
    rewrite b64decode_group by assumption.
    rewrite IH, Hx, Hy, Hz.
    change [to_N a; to_N b; to_N c] with (map to_N [a; b; c]).
    now rewrite bytes_of_N_to_N.
Qed.

(** ** The reader *)

(** What [read_file] answers for a regular file that the guard lets
    through, by the outcome of the codec lookup and of the decoding. *)
Lemma read_file_regular base cwd codecs_lookup fs request path data mtime :
  safe_path base cwd (FileRequest.path request) = Return path ->
  resolve fs cwd path = Some (File data mtime) ->
  read_file base cwd codecs_lookup fs request
  = let encoding := or_default (FileRequest.encoding request) (lit "utf-8") in
    match codecs_lookup encoding with
    | None => Raise (HTTPException 500 (StrOf LookupError))
    | Some decode =>
        match decode data with
        | inr text =>
            Return {| FileContentResponse.content := universal_newlines text;
                      FileContentResponse.encoding := encoding |}
        | inl UnicodeDecodeError =>
            Return {| FileContentResponse.content := map to_N (b64encode data);
                      FileContentResponse.encoding := lit "base64" |}
        | inl e => Raise (HTTPException 500 (StrOf e))
        end
    end.
Proof.
  intros Hsafe Hres. unfold read_file. rewrite Hsafe. cbn [bind].
  unfold os_path_exists, os_path_isdir, open_r_read, open_rb_read.
  rewrite Hres. cbn [negb is_dir_node]. cbv zeta.
  destruct (codecs_lookup _) as [decode|]; [|reflexivity].
  destruct (decode data) as [[]|text]; cbn [call bind except_Exception];
    try reflexivity.
  now rewrite ascii_decode_b64encode.
Qed.

(** C7: a path that passes the guard and names a directory makes
    [read_file] raise 400, and one that names nothing makes it raise 404;
    in neither case is there a response. *)
Theorem read_file_directory_or_missing
    base cwd codecs_lookup fs request path :
  safe_path base cwd (FileRequest.path request) = Return path ->
  (os_path_exists cwd fs path = true -> os_path_isdir cwd fs path = true ->
   read_file base cwd codecs_lookup fs request
   = Raise (HTTPException 400 (Text (lit "Cannot read directory"))))
  /\ (os_path_exists cwd fs path = false ->
      read_file base cwd codecs_lookup fs request
      = Raise (HTTPException 404 (Text (lit "File not found")))).
Proof.
  intros Hsafe. unfold read_file. rewrite Hsafe. cbn [bind].
  split.
  - intros -> ->. reflexivity.
  - intros ->. reflexivity.
Qed.

Lemma read_file_directory_or_missing_witness :
  read_file (Some (lit "/data")) (lit "/srv") builtin_codecs sample_fs
    {| FileRequest.path := lit "/data/sub"; FileRequest.encoding := None |}
  = Raise (HTTPException 400 (Text (lit "Cannot read directory")))
  /\ read_file (Some (lit "/data")) (lit "/srv") builtin_codecs sample_fs
       {| FileRequest.path := lit "/data/absent"; FileRequest.encoding := None |}
     = Raise (HTTPException 404 (Text (lit "File not found"))).
Proof.
  split.
  - apply (read_file_directory_or_missing (Some (lit "/data")) (lit "/srv")
             builtin_codecs sample_fs _ (lit "/data/sub"));
      reflexivity.
  - apply (read_file_directory_or_missing (Some (lit "/data")) (lit "/srv")
             builtin_codecs sample_fs _ (lit "/data/absent"));
      reflexivity.
Defined.

(** C4, as stated, fails where the codec tells invalid bytes by another
    exception than [UnicodeDecodeError]: under ['undefined'] no bytes are a
    valid decoding, the decoder raises a plain [UnicodeError], the
    [except UnicodeDecodeError] clause does not catch it, and the answer is
    500 instead of the base64 text. *)
Lemma read_file_undefined_codec_no_fallback :
  builtin_codecs_with_undefined (lit "undefined") = Some undefined_decode
  /\ undefined_decode [xff; x00; x10] = inl UnicodeError
  /\ read_file None (lit "/srv") builtin_codecs_with_undefined sample_fs
       {| FileRequest.path := lit "/data/blob.bin";
          FileRequest.encoding := Some (lit "undefined") |}
     = Raise (HTTPException 500 (StrOf UnicodeError))
  /\ read_file None (lit "/srv") builtin_codecs_with_undefined sample_fs
       {| FileRequest.path := lit "/data/blob.bin";
          FileRequest.encoding := Some (lit "undefined") |}
     <> Return {| FileContentResponse.content := map to_N (b64encode [xff; x00; x10]);
                  FileContentResponse.encoding := lit "base64" |}.
Proof. repeat split; try reflexivity. vm_compute. discriminate. Qed.

(** C4 (amended): when the bytes of a regular file make the requested
    codec raise [UnicodeDecodeError], [read_file] answers with encoding
    ["base64"] and the base64 text of the whole file, and a base64 decoder
    gives exactly the file's bytes back from that text; when they make it
    raise anything else, there is no fallback and the answer is 500. *)
Theorem read_file_binary_fallback
    base cwd codecs_lookup fs request path data mtime decode :
  safe_path base cwd (FileRequest.path request) = Return path ->
  resolve fs cwd path = Some (File data mtime) ->
  codecs_lookup (or_default (FileRequest.encoding request) (lit "utf-8"))
  = Some decode ->
  (decode data = inl UnicodeDecodeError ->
   read_file base cwd codecs_lookup fs request
   = Return {| FileContentResponse.content := map to_N (b64encode data);
               FileContentResponse.encoding := lit "base64" |}
   /\ b64decode (map to_N (b64encode data)) = Some data)
  /\ (forall e, decode data = inl e -> e <> UnicodeDecodeError ->
      read_file base cwd codecs_lookup fs request
      = Raise (HTTPException 500 (StrOf e))).
Proof.
  intros Hsafe Hres Hcodec.
  rewrite (read_file_regular _ _ _ _ _ _ _ _ Hsafe Hres). cbv zeta.
  rewrite Hcodec. split.
  - intros Hdec. split; [|apply b64decode_b64encode]. now rewrite Hdec.
  - intros e Hdec Hne. rewrite Hdec. destruct e; [now elim Hne|reflexivity..].
Qed.

Lemma read_file_binary_fallback_witness :
  (read_file (Some (lit "/data")) (lit "/srv") builtin_codecs sample_fs
     {| FileRequest.path := lit "/data/blob.bin"; FileRequest.encoding := None |}
   = Return {| FileContentResponse.content := lit "/wAQ";
               FileContentResponse.encoding := lit "base64" |}
   /\ b64decode (lit "/wAQ") = Some [xff; x00; x10])
  /\ read_file (Some (lit "/data")) (lit "/srv") builtin_codecs_with_undefined
       sample_fs
       {| FileRequest.path := lit "/data/blob.bin";
          FileRequest.encoding := Some (lit "undefined") |}
     = Raise (HTTPException 500 (StrOf UnicodeError)).
Proof.
  split.
  - exact (proj1 (read_file_binary_fallback (Some (lit "/data")) (lit "/srv")
                    builtin_codecs sample_fs
                    {| FileRequest.path := lit "/data/blob.bin";
                       FileRequest.encoding := None |}
                    (lit "/data/blob.bin") [xff; x00; x10] 115%Z
                    (strict utf_8_decode) eq_refl eq_refl eq_refl)
             eq_refl).
  - apply (proj2 (read_file_binary_fallback (Some (lit "/data")) (lit "/srv")
                    builtin_codecs_with_undefined sample_fs
                    {| FileRequest.path := lit "/data/blob.bin";
                       FileRequest.encoding := Some (lit "undefined") |}
                    (lit "/data/blob.bin") [xff; x00; x10] 115%Z
                    undefined_decode eq_refl eq_refl eq_refl)
             UnicodeError eq_refl).
    discriminate.
Defined.

(** C5, as stated, fails on its own example: the label returned with the
    text of a UTF-8 file is the encoding name ["utf-8"], not ["text"]; and
    the content of a file with a carriage return is not its decoded text,
    the line end having been translated. *)
Lemma read_file_text_label_is_encoding_name :
  read_file None (lit "/srv") builtin_codecs sample_fs
    {| FileRequest.path := lit "/data/hello.txt"; FileRequest.encoding := None |}
  = Return {| FileContentResponse.content := lit "hello" ++ [10];
              FileContentResponse.encoding := lit "utf-8" |}
  /\ read_file None (lit "/srv") builtin_codecs sample_fs
       {| FileRequest.path := lit "/data/hello.txt"; FileRequest.encoding := None |}
     <> Return {| FileContentResponse.content := lit "hello" ++ [10];
                  FileContentResponse.encoding := lit "text" |}
  /\ utf_8_decode [x61; x0d; x0a; x62] = Some [97; 13; 10; 98]
  /\ read_file None (lit "/srv") builtin_codecs sample_fs
       {| FileRequest.path := lit "/data/sub/crlf.txt";
          FileRequest.encoding := Some (lit "utf-8") |}
     = Return {| FileContentResponse.content := [97; 10; 98];
                 FileContentResponse.encoding := lit "utf-8" |}.
Proof. repeat split; try reflexivity. vm_compute. discriminate. Qed.

(** C5 (amended): when the bytes of a regular file decode under the
    requested encoding (["utf-8"] when none or an empty one is requested),
    [read_file] answers with the decoded text, its line ends translated
    to ['\n'] as text-mode reading does, labelled with the name of that
    encoding. *)
Theorem read_file_text
    base cwd codecs_lookup fs request path data mtime decode text :
  safe_path base cwd (FileRequest.path request) = Return path ->
  resolve fs cwd path = Some (File data mtime) ->
  codecs_lookup (or_default (FileRequest.encoding request) (lit "utf-8"))
  = Some decode ->
  decode data = inr text ->
  read_file base cwd codecs_lookup fs request
  = Return {| FileContentResponse.content := universal_newlines text;
              FileContentResponse.encoding :=
                or_default (FileRequest.encoding request) (lit "utf-8") |}.
Proof.
  intros Hsafe Hres Hcodec Hdec.
  rewrite (read_file_regular _ _ _ _ _ _ _ _ Hsafe Hres). cbv zeta.
  now rewrite Hcodec, Hdec.
Qed.

Lemma read_file_text_witness :
  read_file (Some (lit "/data")) (lit "/srv") builtin_codecs sample_fs
    {| FileRequest.path := lit "/data/hello.txt"; FileRequest.encoding := None |}
  = Return {| FileContentResponse.content := lit "hello" ++ [10];
              FileContentResponse.encoding := lit "utf-8" |}.
Proof.
  apply (read_file_text (Some (lit "/data")) (lit "/srv") builtin_codecs sample_fs
           {| FileRequest.path := lit "/data/hello.txt";
              FileRequest.encoding := None |}
           (lit "/data/hello.txt") (list_byte_of_string "hello" ++ [x0a]) 111%Z
           (strict utf_8_decode) (lit "hello" ++ [10]));
    reflexivity.
Defined.

(** C10, as stated, fails for the empty name: it is not a recognised
    encoding, yet a request that names it is served as UTF-8 instead of
    being answered with 500. *)
Lemma read_file_empty_encoding_is_default :
  builtin_codecs [] = None
  /\ read_file None (lit "/srv") builtin_codecs sample_fs
       {| FileRequest.path := lit "/data/hello.txt";
          FileRequest.encoding := Some [] |}
     = Return {| FileContentResponse.content := lit "hello" ++ [10];
                 FileContentResponse.encoding := lit "utf-8" |}
  /\ status_code_of
       (read_file None (lit "/srv") builtin_codecs sample_fs
          {| FileRequest.path := lit "/data/hello.txt";
             FileRequest.encoding := Some [] |})
     <> Some 500%Z.
Proof. repeat split; try reflexivity. vm_compute. discriminate. Qed.

(** C10 (amended): for a regular file, a requested encoding name that is
    not empty and not known to the codec registry makes [read_file] raise
    500, not 400, and not return the base64 fallback, which is entered
    only on [UnicodeDecodeError]. *)
Theorem read_file_unknown_encoding
    base cwd codecs_lookup fs request path data mtime name :
  safe_path base cwd (FileRequest.path request) = Return path ->
  resolve fs cwd path = Some (File data mtime) ->
  FileRequest.encoding request = Some name ->
  name <> [] ->
  codecs_lookup name = None ->
  read_file base cwd codecs_lookup fs request
  = Raise (HTTPException 500 (StrOf LookupError)).
Proof.
  intros Hsafe Hres Hreq Hname Hcodec.
  rewrite (read_file_regular _ _ _ _ _ _ _ _ Hsafe Hres). cbv zeta.
  rewrite Hreq. destruct name as [|c name]; [now elim Hname|].
  cbn [or_default]. now rewrite Hcodec.
Qed.

Lemma read_file_unknown_encoding_witness :
  read_file (Some (lit "/data")) (lit "/srv") builtin_codecs sample_fs
    {| FileRequest.path := lit "/data/blob.bin";
       FileRequest.encoding := Some (lit "klingon") |}
  = Raise (HTTPException 500 (StrOf LookupError)).
Proof.
  apply (read_file_unknown_encoding (Some (lit "/data")) (lit "/srv")
           builtin_codecs sample_fs
           {| FileRequest.path := lit "/data/blob.bin";
              FileRequest.encoding := Some (lit "klingon") |}
           (lit "/data/blob.bin") [xff; x00; x10] 115%Z (lit "klingon"));
    try reflexivity.
  discriminate.
Defined.

(** ** The lister *)

Lemma except_Exception_Return {A} (r : result A) (a : A) :
  except_Exception r = Return a -> r = Return a.
Proof. destruct r as [a'|[c d|e]]; simpl; congruence. Qed.

Lemma FileInfo_new_Return validate_modified name path is_dir size mtime info :
  FileInfo_new validate_modified name path is_dir size mtime = Return info ->
  FileInfo.name info = name /\ FileInfo.path info = path
  /\ FileInfo.is_dir info = is_dir /\ FileInfo.size info = size.
Proof.
  unfold FileInfo_new. destruct (validate_modified mtime); [|discriminate].
  intros [= <-]. repeat split.
Qed.

Lemma dir_info_invariant cwd validate_modified fs root name info :
  dir_info cwd validate_modified fs root name = Return info -> size_iff_file info.
Proof.
  unfold dir_info. intros H. apply bind_Return in H as (st & _ & H).
  apply FileInfo_new_Return in H as (_ & _ & Hd & Hs).
  unfold size_iff_file. rewrite Hd, Hs. split; [congruence|discriminate].
Qed.

Lemma file_info_invariant cwd validate_modified fs root name info :
  file_info cwd validate_modified fs root name = Return info -> size_iff_file info.
Proof.
  unfold file_info. intros H. apply bind_Return in H as (st & _ & H).
  apply FileInfo_new_Return in H as (_ & _ & Hd & Hs).
  unfold size_iff_file. rewrite Hd, Hs. split; [reflexivity|discriminate].
Qed.

Lemma item_info_invariant cwd validate_modified fs path item info :
  item_info cwd validate_modified fs path item = Return info -> size_iff_file info.
Proof.
  unfold item_info. intros H. apply bind_Return in H as (st & _ & H).
  apply FileInfo_new_Return in H as (_ & _ & Hd & Hs).
  unfold size_iff_file. rewrite Hd, Hs.
  destruct (os_path_isdir cwd fs (join path item));
    split; congruence || discriminate.
Qed.

Lemma walk_infos_invariant cwd validate_modified fs triple infos :
  walk_infos cwd validate_modified fs triple = Return infos ->
  Forall size_iff_file infos.
Proof.
  destruct triple as [[root dirs] files]. unfold walk_infos. intros H.
  apply bind_Return in H as (ds & Hds & H).
  apply bind_Return in H as (fs' & Hfs & H). injection H as <-.
  apply Forall_app. split.
  - eapply for_each_Forall; [|exact Hds]. intros x y. apply dir_info_invariant.
  - eapply for_each_Forall; [|exact Hfs]. intros x y. apply file_info_invariant.
Qed.

Lemma Forall_concat {A} (P : A -> Prop) (ls : list (list A)) :
  Forall (Forall P) ls -> Forall P (List.concat ls).
Proof.
  induction 1 as [|l ls Hl _ IH]; simpl; [constructor|].
  apply Forall_app. now split.
Qed.

Example list_files_of_regular_file :
  list_files None (lit "/srv") coerce_number sample_fs
    {| FileListRequest.path := lit "/data/blob.bin";
       FileListRequest.recursive := None |}
  = Raise (HTTPException 500 (StrOf NotADirectoryError))
  /\ list_files None (lit "/srv") coerce_number sample_fs
       {| FileListRequest.path := lit "/data/blob.bin";
          FileListRequest.recursive := Some true |}
     = Return {| FileListResponse.files := [] |}.
Proof. split; reflexivity. Qed.

Example list_files_missing :
  list_files None (lit "/srv") coerce_number sample_fs
    {| FileListRequest.path := lit "/data/absent";
       FileListRequest.recursive := Some true |}
  = Raise (HTTPException 404 (Text (lit "Path not found"))).
Proof. reflexivity. Qed.

(** When the validation rejects a number for [modified], a listing with
    an entry is answered with 500. *)
Example list_files_validation_rejects :
  list_files None (lit "/srv") reject_number sample_fs
    {| FileListRequest.path := lit "/data2";
       FileListRequest.recursive := Some true |}
  = Raise (HTTPException 500 (StrOf ValidationError)).
Proof. reflexivity. Qed.

(** C8: in every [FileInfo] of a listing, recursive or not, [size] is
    present if and only if [is_dir] is false. *)
Theorem list_files_size_iff_not_directory
    base cwd validate_modified fs request response :
  list_files base cwd validate_modified fs request = Return response ->
  Forall (fun info => FileInfo.size info <> None <-> FileInfo.is_dir info = false)
         (FileListResponse.files response).
Proof.
  unfold list_files. intros H. apply except_Exception_Return in H.
  apply bind_Return in H as (path & _ & H).
  destruct (os_path_exists cwd fs path); cbn [negb] in H; [|discriminate].
  apply bind_Return in H as (infos & H & Hresponse).
  injection Hresponse as <-. cbn [FileListResponse.files].
  unfold collect_files in H.
  assert (Hflat : (items <- os_listdir cwd fs path ;;
                   for_each (item_info cwd validate_modified fs path) items)
                  = Return infos -> Forall size_iff_file infos).
  { intros H'. apply bind_Return in H' as (items & _ & H').
    eapply for_each_Forall; [|exact H']. intros x y. apply item_info_invariant. }
  destruct (FileListRequest.recursive request) as [[|]|]; auto.
  apply bind_Return in H as (chunks & Hchunks & H). injection H as <-.
  apply Forall_concat.
  eapply for_each_Forall; [|exact Hchunks].
  intros x y. apply walk_infos_invariant.
Qed.

Lemma list_files_size_iff_not_directory_witness :
  Forall (fun info => FileInfo.size info <> None <-> FileInfo.is_dir info = false)
    [ {| FileInfo.name := lit "hello.txt"; FileInfo.path := lit "/data/hello.txt";
         FileInfo.is_dir := false; FileInfo.size := Some 6%Z;
         FileInfo.modified := Some (lit "111.0") |};
      {| FileInfo.name := lit "sub"; FileInfo.path := lit "/data/sub";
         FileInfo.is_dir := true; FileInfo.size := None;
         FileInfo.modified := Some (lit "112.0") |};
      {| FileInfo.name := lit "blob.bin"; FileInfo.path := lit "/data/blob.bin";
         FileInfo.is_dir := false; FileInfo.size := Some 3%Z;
         FileInfo.modified := Some (lit "115.0") |} ].
Proof.
  apply (list_files_size_iff_not_directory None (lit "/srv") coerce_number
           sample_fs
           {| FileListRequest.path := lit "/data";
              FileListRequest.recursive := Some false |}
           {| FileListResponse.files := _ |}).
  reflexivity.
Defined.

(** ** Paths and their components *)

Lemma split_cons (s : str) : exists w ws, split sep s = w :: ws.
Proof.
  induction s as [|c s (w & ws & IH)]; simpl; [eauto|].
  destruct (c =? sep); [eauto|]. rewrite IH. eauto.
Qed.

Lemma split_app_sep (a b : str) :
  split sep (a ++ sep :: b) = split sep a ++ split sep b.
Proof.
  induction a as [|c a IH]; simpl.
  - reflexivity.
  - destruct (c =? sep); rewrite IH; [reflexivity|].
    now destruct (split_cons a) as (w & ws & ->).
Qed.

Lemma split_no_sep (name : str) :
  forallb (fun c => negb (c =? sep)) name = true -> split sep name = [name].
Proof.
  induction name as [|c name IH]; simpl; [reflexivity|].
  intros H. apply andb_prop in H as [Hc Hname].
  apply negb_true_iff in Hc. rewrite Hc. now rewrite IH.
Qed.

Lemma namei_app (st : namei_state) (comps1 comps2 : list str) :
  namei st (comps1 ++ comps2)
  = match namei st comps1 with
    | Some st' => namei st' comps2
    | None => None
    end.
Proof.
  revert st. induction comps1 as [|c comps1 IH]; intros st; simpl; [reflexivity|].
  destruct (namei_step st c); auto.
Qed.

Lemma endswith_char_app (s : str) (c : codepoint) :
  endswith_char s c = true -> exists s0, s = s0 ++ [c].
Proof.
  unfold endswith_char. destruct (rev s) as [|x r] eqn:E; [discriminate|].
  intros H. apply N.eqb_eq in H. subst x.
  exists (rev r). rewrite <- (rev_involutive s), E. reflexivity.
Qed.

Lemma endswith_char_last (s : str) (c d : codepoint) :
  endswith_char (s ++ [d]) c = (d =? c).
Proof. unfold endswith_char. now rewrite rev_app_distr. Qed.

Lemma valid_name_inv (name : str) :
  valid_name name = true ->
  str_eqb name [] = false /\ str_eqb name dot = false
  /\ str_eqb name dotdot = false
  /\ forallb (fun c => negb (c =? sep)) name = true.
Proof.
  unfold valid_name. intros H.
  apply andb_prop in H as [H H4]. apply andb_prop in H as [H H3].
  apply andb_prop in H as [H1 H2].
  rewrite negb_true_iff in H1, H2, H3. auto.
Qed.

Lemma valid_name_head (name : str) :
  valid_name name = true ->
  exists c name', name = c :: name' /\ (c =? sep) = false.
Proof.
  intros H. apply valid_name_inv in H as (H1 & _ & _ & H4).
  destruct name as [|c name']; [discriminate|].
  simpl in H4. apply andb_prop in H4 as [Hc _]. apply negb_true_iff in Hc.
  eauto.
Qed.

Lemma join_valid_name (top name : str) :
  valid_name name = true -> join top name = base_of top ++ name.
Proof.
  intros H. destruct (valid_name_head name H) as (c & name' & -> & Hc).
  unfold join, base_of. cbn [startswith]. rewrite Hc. cbn [andb].
  destruct top as [|t top]; [reflexivity|].
  destruct (endswith_char (t :: top) sep); [reflexivity|].
  now rewrite <- app_assoc.
Qed.

Lemma valid_name_last (name : str) :
  valid_name name = true -> endswith_char name sep = false.
Proof.
  intros H. apply valid_name_inv in H as (H1 & _ & _ & H4).
  destruct (endswith_char name sep) eqn:E; [|reflexivity].
  apply endswith_char_app in E as (s0 & ->).
  rewrite forallb_app in H4. apply andb_prop in H4 as [_ H4].
  cbn [forallb] in H4. rewrite N.eqb_refl in H4. discriminate.
Qed.

Lemma base_of_join (top name : str) :
  valid_name name = true ->
  base_of (join top name) = base_of top ++ name ++ [sep].
Proof.
  intros H. rewrite (join_valid_name top name H).
  destruct (valid_name_head name H) as (c & name' & Hname & Hc).
  assert (Hend : endswith_char (base_of top ++ name) sep = false).
  { destruct (endswith_char (base_of top ++ name) sep) eqn:E; [|reflexivity].
    pose proof (valid_name_last name H) as Hl.
    destruct (exists_last (l := name)) as (n0 & d & Hn0); [now rewrite Hname|].
    rewrite Hn0 in Hl, E. rewrite app_assoc in E.
    rewrite endswith_char_last in Hl, E. congruence. }
  unfold base_of at 1. rewrite Hend, app_assoc.
  destruct (base_of top ++ name) eqn:E; [|reflexivity].
  apply app_eq_nil in E as [_ E]. now rewrite Hname in E.
Qed.

Lemma base_of_length (top : str) : (List.length top <= List.length (base_of top))%nat.
Proof.
  unfold base_of. destruct top as [|t top]; [auto|].
  destruct (endswith_char _ _); [auto|]. rewrite length_app. lia.
Qed.

(** A name without a slash, followed by nothing or by a slash and more,
    is determined by the whole. *)
Lemma name_determined (n1 n2 t1 t2 : str) :
  forallb (fun c => negb (c =? sep)) n1 = true ->
  forallb (fun c => negb (c =? sep)) n2 = true ->
  (t1 = [] \/ exists r, t1 = sep :: r) ->
  (t2 = [] \/ exists r, t2 = sep :: r) ->
  n1 ++ t1 = n2 ++ t2 -> n1 = n2.
Proof.
  revert n2. induction n1 as [|c n1 IH]; intros [|c' n2] H1 H2 Ht1 Ht2 E;
    simpl in *.
  - reflexivity.
  - apply andb_prop in H2 as [Hc _]. apply negb_true_iff, N.eqb_neq in Hc.
    destruct Ht1 as [->|(r & ->)]; [discriminate|]. congruence.
  - apply andb_prop in H1 as [Hc _]. apply negb_true_iff, N.eqb_neq in Hc.
    destruct Ht2 as [->|(r & ->)]; [discriminate|]. congruence.
  - apply andb_prop in H1 as [_ H1]. apply andb_prop in H2 as [_ H2].
    injection E as -> E. f_equal. eauto.
Qed.

(** ** Resolution of the paths that [join] builds *)

Lemma resolve_from_root fs cwd c path :
  resolve fs cwd (c :: path)
  = option_map snd (namei ([], fs) (split sep (from_root cwd (c :: path)))).
Proof. reflexivity. Qed.

Lemma from_root_app (cwd : str) (c : codepoint) (top : str) :
  exists pre, forall m, from_root cwd ((c :: top) ++ m) = pre ++ (c :: top) ++ m.
Proof.
  assert (Hstart : forall m, startswith ((c :: top) ++ m) [sep] = (c =? sep)).
  { intros m. cbn [app startswith]. now destruct (top ++ m), (c =? sep). }
  unfold from_root, join. destruct (c =? sep) eqn:Ec.
  - exists []. intros m. now rewrite Hstart.
  - destruct cwd as [|d cwd].
    + exists []. intros m. now rewrite Hstart.
    + destruct (endswith_char (d :: cwd) sep).
      * exists (d :: cwd). intros m. now rewrite Hstart.
      * exists ((d :: cwd) ++ [sep]). intros m.
        now rewrite Hstart, <- app_assoc.
Qed.

Lemma namei_step_empty (st st' : namei_state) :
  namei_step st [] = Some st' -> st' = st.
Proof.
  unfold namei_step. destruct (snd st); [discriminate|].
  cbn [str_eqb orb]. congruence.
Qed.

Lemma namei_step_child anc st entries name child :
  valid_name name = true ->
  lookup_entry name entries = Some child ->
  namei_step (anc, Dir st entries) name = Some (Dir st entries :: anc, child).
Proof.
  intros Hname Hlook. apply valid_name_inv in Hname as (H1 & H2 & H3 & _).
  unfold namei_step. cbn [snd fst]. now rewrite H1, H2, H3, Hlook.
Qed.

(** A valid name joined to a path that names a directory names the entry
    of that name in the directory. *)
Lemma resolve_child fs cwd top st entries name child :
  resolve fs cwd top = Some (Dir st entries) ->
  valid_name name = true ->
  lookup_entry name entries = Some child ->
  resolve fs cwd (join top name) = Some child.
Proof.
  intros Hres Hname Hlook.
  destruct top as [|c top]; [discriminate|].
  rewrite resolve_from_root in Hres.
  destruct (from_root_app cwd c top) as (pre & Hpre).
  pose proof (Hpre []) as Htop. rewrite !app_nil_r in Htop. rewrite Htop in Hres.
  pose proof (split_no_sep name (proj2 (proj2 (proj2 (valid_name_inv name Hname)))))
    as Hsplit.
  rewrite (join_valid_name _ _ Hname). unfold base_of.
  destruct (endswith_char (c :: top) sep) eqn:Eend.
  - apply endswith_char_app in Eend as (s0 & Es0).
    change ((c :: top) ++ name) with (c :: top ++ name).
    rewrite resolve_from_root.
    change (c :: top ++ name) with ((c :: top) ++ name).
    rewrite Hpre, Es0. rewrite Es0 in Hres.
    replace (pre ++ (s0 ++ [sep]) ++ name) with ((pre ++ s0) ++ sep :: name)
      by now rewrite <- !app_assoc.
    replace (pre ++ s0 ++ [sep]) with ((pre ++ s0) ++ sep :: []) in Hres
      by now rewrite <- !app_assoc.
    rewrite split_app_sep, namei_app in *. rewrite Hsplit.
    destruct (namei ([], fs) (split sep (pre ++ s0))) as [st0|]; [|discriminate].
    cbn [split namei] in Hres. cbn [namei].
    destruct (namei_step st0 []) as [st1|] eqn:Estep; [|discriminate].
    apply namei_step_empty in Estep. subst st1.
    destruct st0 as [anc n]. cbn [option_map snd] in Hres. injection Hres as ->.
    now rewrite (namei_step_child _ _ _ _ _ Hname Hlook).
  - change (((c :: top) ++ [sep]) ++ name) with (c :: (top ++ [sep]) ++ name).
    rewrite resolve_from_root.
    change (c :: (top ++ [sep]) ++ name) with (((c :: top) ++ [sep]) ++ name).
    rewrite <- app_assoc. rewrite Hpre.
    replace (pre ++ (c :: top) ++ [sep] ++ name)
      with ((pre ++ c :: top) ++ sep :: name) by now rewrite <- !app_assoc.
    rewrite split_app_sep, namei_app, Hsplit.
    destruct (namei ([], fs) (split sep (pre ++ c :: top))) as [[anc n]|];
      [|discriminate].
    cbn [option_map snd] in Hres. injection Hres as ->.
    cbn [namei]. now rewrite (namei_step_child _ _ _ _ _ Hname Hlook).
Qed.

Lemma lookup_entry_distinct (entries : list (str * node)) (e : str * node) :
  distinct (map fst entries) = true ->
  In e entries -> lookup_entry (fst e) entries = Some (snd e).
Proof.
  unfold lookup_entry.
  induction entries as [|e' entries IH]; intros Hd Hin; [destruct Hin|].
  cbn [map distinct] in Hd. apply andb_prop in Hd as [Hnot Hd].
  cbn [find]. destruct Hin as [->|Hin].
  - now rewrite str_eqb_refl.
  - destruct (str_eqb (fst e') (fst e)) eqn:E; [|auto].
    apply str_eqb_eq in E. apply negb_true_iff in Hnot.
    assert (existsb (str_eqb (fst e')) (map fst entries) = true); [|congruence].
    apply existsb_exists. exists (fst e). split.
    + now apply in_map.
    + rewrite E. apply str_eqb_refl.
Qed.

Lemma lookup_entry_In (entries : list (str * node)) (name : str) :
  In name (map fst entries) -> exists child, lookup_entry name entries = Some child.
Proof.
  unfold lookup_entry.
  induction entries as [|e entries IH]; intros Hin; [destruct Hin|].
  cbn [find]. destruct (str_eqb (fst e) name) eqn:E; [simpl; eauto|].
  destruct Hin as [Heq|Hin]; [|auto].
  apply str_eqb_neq in E. contradiction.
Qed.

(** ** The tree below a directory *)

Lemma node_nested_ind (P : node -> Prop) :
  (forall data mtime, P (File data mtime)) ->
  (forall st entries, Forall (fun e => P (snd e)) entries -> P (Dir st entries)) ->
  forall n, P n.
Proof.
  intros HFile HDir. fix IH 1. intros [data mtime|st entries].
  - apply HFile.
  - apply HDir. induction entries as [|e entries IHentries]; constructor.
    + apply IH.
    + exact IHentries.
Qed.

Lemma well_formed_Dir st entries :
  well_formed (Dir st entries) = true ->
  distinct (map fst entries) = true
  /\ forall e, In e entries ->
       valid_name (fst e) = true /\ well_formed (snd e) = true.
Proof.
  cbn [well_formed]. intros H. apply andb_prop in H as [Hd Hall].
  split; [exact Hd|]. intros e Hin.
  rewrite forallb_forall in Hall. specialize (Hall e Hin).
  now apply andb_prop in Hall.
Qed.

Lemma list_sum_add_map {A} (f g : A -> nat) (l : list A) :
  list_sum (map (fun x => f x + g x)%nat l)
  = (list_sum (map f l) + list_sum (map g l))%nat.
Proof. induction l as [|x l IH]; simpl; lia. Qed.

Lemma length_flat_map_sum {A B} (f : A -> list B) (l : list A) :
  List.length (flat_map f l) = list_sum (map (fun x => List.length (f x)) l).
Proof.
  induction l as [|x l IH]; simpl; [reflexivity|].
  now rewrite length_app, IH.
Qed.

(** The descendants of a node are as many as its files and directories. *)
Lemma descendants_length (n : node) :
  forall top, List.length (descendants top n) = (count_files n + count_dirs n)%nat.
Proof.
  induction n as [data mtime|st entries IH] using node_nested_ind; intros top.
  - reflexivity.
  - cbn [descendants count_files count_dirs].
    rewrite length_flat_map_sum, <- list_sum_add_map. f_equal.
    apply map_ext_in. intros e Hin. cbn [List.length].
    rewrite Forall_forall in IH. rewrite (IH e Hin).
    destruct (snd e) as [data mtime|st' entries']; cbn [is_dir_node]; [reflexivity|].
    lia.
Qed.

(** Every descendant is the node that its path names. *)
Lemma descendants_resolve fs cwd (n : node) :
  forall top,
    well_formed n = true ->
    resolve fs cwd top = Some n ->
    Forall (fun d => resolve fs cwd (fst (fst d)) = Some (snd d))
           (descendants top n).
Proof.
  induction n as [data mtime|st entries IH] using node_nested_ind;
    intros top Hwf Hres.
  - constructor.
  - cbn [descendants]. apply Forall_flat_map. apply Forall_forall. intros e Hin.
    destruct (well_formed_Dir _ _ Hwf) as (Hdistinct & Hentries).
    destruct (Hentries e Hin) as (Hname & Hwfe).
    assert (Hchild : resolve fs cwd (join top (fst e)) = Some (snd e)).
    { eapply resolve_child; eauto. now apply lookup_entry_distinct. }
    constructor; [exact Hchild|].
    rewrite Forall_forall in IH. now apply (IH e Hin).
Qed.

(** Every path of a descendant lies strictly below the top. *)
Lemma descendants_below (n : node) :
  forall top d,
    well_formed n = true ->
    In d (descendants top n) ->
    exists r, fst (fst d) = base_of top ++ r /\ r <> [].
Proof.
  induction n as [data mtime|st entries IH] using node_nested_ind;
    intros top d Hwf Hin.
  - destruct Hin.
  - cbn [descendants] in Hin. apply in_flat_map in Hin as (e & He & Hin).
    destruct (well_formed_Dir _ _ Hwf) as (_ & Hentries).
    destruct (Hentries e He) as (Hname & Hwfe).
    destruct Hin as [<-|Hin].
    + cbn [fst]. exists (fst e). split; [now apply join_valid_name|].
      destruct (valid_name_head _ Hname) as (c & name' & -> & _). discriminate.
    + rewrite Forall_forall in IH.
      destruct (IH e He _ _ Hwfe Hin) as (r & Hr & _).
      rewrite base_of_join in Hr by assumption.
      exists (fst e ++ sep :: r). split.
      * rewrite Hr. now rewrite <- !app_assoc.
      * destruct (fst e); discriminate.
Qed.

Lemma descendants_not_top (n : node) top d :
  well_formed n = true -> In d (descendants top n) -> fst (fst d) <> top.
Proof.
  intros Hwf Hin Heq.
  destruct (descendants_below n top d Hwf Hin) as (r & Hr & Hne).
  pose proof (base_of_length top) as Hlen.
  rewrite Heq in Hr. apply (f_equal (@List.length N)) in Hr.
  rewrite length_app in Hr. destruct r; [now elim Hne|]. simpl in Hr. lia.
Qed.

(** An entry and what lies below it: the paths go through its name. *)
Lemma below_entry_form (top : str) (e : str * node) (d : str * str * node) :
  valid_name (fst e) = true ->
  well_formed (snd e) = true ->
  In d ((join top (fst e), fst e, snd e)
          :: descendants (join top (fst e)) (snd e)) ->
  exists t, fst (fst d) = base_of top ++ fst e ++ t
            /\ (t = [] \/ exists r, t = sep :: r).
Proof.
  intros Hname Hwfe [<-|Hin].
  - exists []. cbn [fst]. split; [|now left].
    now rewrite app_nil_r, join_valid_name.
  - destruct (descendants_below _ _ _ Hwfe Hin) as (r & Hr & _).
    rewrite base_of_join in Hr by assumption.
    exists (sep :: r). split; [|right; eauto].
    rewrite Hr. now rewrite <- !app_assoc.
Qed.

Lemma distinct_cons (name : str) (names : list str) :
  distinct (name :: names) = true ->
  ~ In name names /\ distinct names = true.
Proof.
  cbn [distinct]. intros H. apply andb_prop in H as [Hnot Hd].
  split; [|exact Hd]. intros Hin. apply negb_true_iff in Hnot.
  assert (existsb (str_eqb name) names = true); [|congruence].
  apply existsb_exists. exists name. split; [exact Hin|apply str_eqb_refl].
Qed.

(** The paths of the descendants of a well-formed directory are pairwise
    distinct. *)
Lemma descendants_NoDup (n : node) :
  forall top,
    well_formed n = true ->
    NoDup (map (fun d => fst (fst d)) (descendants top n)).
Proof.
  induction n as [data mtime|st entries IH] using node_nested_ind;
    intros top Hwf.
  - constructor.
  - cbn [descendants].
    destruct (well_formed_Dir _ _ Hwf) as (Hdistinct & Hentries).
    clear Hwf. rewrite Forall_forall in IH.
    induction entries as [|e entries IHentries]; [constructor|].
    cbn [flat_map]. rewrite map_app.
    apply distinct_cons in Hdistinct as (Hfresh & Hdistinct).
    destruct (Hentries e (or_introl eq_refl)) as (Hname & Hwfe).
    apply NoDup_app.
    + cbn [map fst]. constructor.
      * intros Hin. apply in_map_iff in Hin as (d & Hd & Hin).
        now apply (descendants_not_top _ _ _ Hwfe Hin).
      * apply IH; [now left|exact Hwfe].
    + apply IHentries; auto.
      * intros e' He'. apply IH. now right.
      * intros e' He'. apply Hentries. now right.
    + intros p Hp Hp'.
      apply in_map_iff in Hp as (d & <- & Hd).
      apply in_map_iff in Hp' as (d' & Heq & Hd').
      apply in_flat_map in Hd' as (e' & He' & Hd').
      destruct (Hentries e' (or_intror He')) as (Hname' & Hwfe').
      destruct (below_entry_form top e d Hname Hwfe Hd) as (t & Ht & Hform).
      destruct (below_entry_form top e' d' Hname' Hwfe' Hd') as (t' & Ht' & Hform').
      rewrite Ht, Ht' in Heq. apply app_inv_head in Heq.
      apply name_determined in Heq; auto;
        try (now apply valid_name_inv).
      apply Hfresh. rewrite <- Heq. now apply in_map.
Qed.

(** ** The recursive listing *)

Lemma for_each_app {A B} (f : A -> result B) (xs ys : list A) xs' ys' :
  for_each f xs = Return xs' ->
  for_each f ys = Return ys' ->
  for_each f (xs ++ ys) = Return (xs' ++ ys').
Proof.
  revert xs'. induction xs as [|x xs IH]; intros xs' Hxs Hys; simpl in *.
  - injection Hxs as <-. exact Hys.
  - apply bind_Return in Hxs as (y & Hy & Hxs).
    apply bind_Return in Hxs as (zs & Hzs & Hxs). injection Hxs as <-.
    rewrite Hy. cbn [bind]. now rewrite (IH zs Hzs Hys).
Qed.

Lemma for_each_map {A B C} (f : B -> result C) (h : A -> B) (g : A -> C) xs :
  (forall x, In x xs -> f (h x) = Return (g x)) ->
  for_each f (map h xs) = Return (map g xs).
Proof.
  induction xs as [|x xs IH]; intros H; simpl; [reflexivity|].
  rewrite (H x (or_introl eq_refl)). cbn [bind].
  rewrite IH; [reflexivity|]. intros y Hy. apply H. now right.
Qed.

Lemma Permutation_filter_split {A} (p : A -> bool) (l : list A) :
  Permutation (filter p l ++ filter (fun x => negb (p x)) l) l.
Proof.
  induction l as [|x l IH]; simpl; [constructor|].
  destruct (p x); simpl.
  - now constructor.
  - apply Permutation_sym, Permutation_cons_app. now apply Permutation_sym.
Qed.

Lemma Permutation_flat_map_cons {A B} (x : A -> B) (f : A -> list B) (l : list A) :
  Permutation (map x l ++ flat_map f l) (flat_map (fun a => x a :: f a) l).
Proof.
  induction l as [|a l IH]; simpl; [constructor|].
  constructor. rewrite <- IH.
  apply Permutation_sym, Permutation_app_swap_app.
Qed.

Section Walk.

Variable cwd : str.
Variable validate_modified : Z -> option str.
Variable fs : node.

(** Validation accepts every timestamp. *)
Hypothesis validate_total : forall mtime, validate_modified mtime <> None.

Lemma FileInfo_new_total name path is_dir size mtime :
  FileInfo_new validate_modified name path is_dir size mtime
  = Return {| FileInfo.name := name; FileInfo.path := path;
              FileInfo.is_dir := is_dir; FileInfo.size := size;
              FileInfo.modified := validate_modified mtime |}.
Proof.
  unfold FileInfo_new. pose proof (validate_total mtime) as H.
  now destruct (validate_modified mtime).
Qed.

Lemma dir_info_child (top : str) (e : str * node) :
  resolve fs cwd (join top (fst e)) = Some (snd e) ->
  is_dir_node (snd e) = true ->
  dir_info cwd validate_modified fs top (fst e)
  = Return (info_of validate_modified (join top (fst e), fst e, snd e)).
Proof.
  intros Hres Hdir. unfold dir_info, os_stat. rewrite Hres. cbn [bind].
  rewrite FileInfo_new_total. unfold info_of. now rewrite Hdir.
Qed.

Lemma file_info_child (top : str) (e : str * node) :
  resolve fs cwd (join top (fst e)) = Some (snd e) ->
  is_dir_node (snd e) = false ->
  file_info cwd validate_modified fs top (fst e)
  = Return (info_of validate_modified (join top (fst e), fst e, snd e)).
Proof.
  intros Hres Hdir. unfold file_info, os_stat. rewrite Hres. cbn [bind].
  rewrite FileInfo_new_total. unfold info_of. now rewrite Hdir.
Qed.

(** The triple of a directory gives the [FileInfo] of each of its
    entries, directories first. *)
Lemma walk_infos_entries (top : str) (entries : list (str * node)) :
  (forall e, In e entries -> resolve fs cwd (join top (fst e)) = Some (snd e)) ->
  exists infos,
    walk_infos cwd validate_modified fs (top, walk_dirs entries, walk_nondirs entries)
    = Return infos
    /\ Permutation infos
         (map (fun e => info_of validate_modified (join top (fst e), fst e, snd e))
              entries).
Proof.
  intros Hres. unfold walk_infos, walk_dirs, walk_nondirs.
  set (child := fun e : str * node =>
                  info_of validate_modified (join top (fst e), fst e, snd e)).
  rewrite (for_each_map _ fst child).
  2:{ intros e He. apply filter_In in He as (He & Hdir). now apply dir_info_child; auto. }
  cbn [bind]. rewrite (for_each_map _ fst child).
  2:{ intros e He. apply filter_In in He as (He & Hdir).
      apply negb_true_iff in Hdir. now apply file_info_child; auto. }
  cbn [bind]. eexists. split; [reflexivity|].
  rewrite <- map_app. apply Permutation_map, Permutation_filter_split.
Qed.

(** The walk from a directory lists its descendants, each once. *)
Lemma walk_node_infos (n : node) :
  forall top,
    well_formed n = true ->
    resolve fs cwd top = Some n ->
    exists chunks,
      for_each (walk_infos cwd validate_modified fs) (walk_node top n)
      = Return chunks
      /\ Permutation (List.concat chunks)
           (map (info_of validate_modified) (descendants top n)).
Proof.
  induction n as [data mtime|st entries IH] using node_nested_ind;
    intros top Hwf Hres.
  - exists []. split; [reflexivity|constructor].
  - destruct (well_formed_Dir _ _ Hwf) as (Hdistinct & Hentries).
    assert (Hchild : forall e, In e entries ->
                       resolve fs cwd (join top (fst e)) = Some (snd e)).
    { intros e He. destruct (Hentries e He) as (Hname & _).
      eapply resolve_child; eauto. now apply lookup_entry_distinct. }
    destruct (walk_infos_entries top entries Hchild) as (infos & Hinfos & Hperm).
    assert (Hsub : exists chunks,
               for_each (walk_infos cwd validate_modified fs)
                 (flat_map (fun e => if is_dir_node (snd e)
                                     then walk_node (join top (fst e)) (snd e)
                                     else []) entries)
               = Return chunks
               /\ Permutation (List.concat chunks)
                    (map (info_of validate_modified)
                       (flat_map (fun e => descendants (join top (fst e)) (snd e))
                          entries))).
    { clear Hwf Hres Hdistinct Hinfos Hperm infos. rewrite Forall_forall in IH.
      induction entries as [|e entries IHentries].
      - exists []. split; [reflexivity|constructor].
      - destruct IHentries as (chunks & Hchunks & Hperm).
        { intros e' He'. apply IH. now right. }
        { intros e' He'. apply Hentries. now right. }
        { intros e' He'. apply Hchild. now right. }
        cbn [flat_map].
        destruct (Hentries e (or_introl eq_refl)) as (_ & Hwfe).
        destruct (IH e (or_introl eq_refl) (join top (fst e)) Hwfe
                    (Hchild e (or_introl eq_refl)))
          as (chunks_e & Hchunks_e & Hperm_e).
        destruct (snd e) as [data mtime|st' entries'] eqn:Esnd; cbn [is_dir_node].
        + exists chunks. split; [exact Hchunks|].
          cbn [descendants app]. exact Hperm.
        + exists (chunks_e ++ chunks). split.
          * now apply for_each_app.
          * rewrite concat_app, map_app. now apply Permutation_app. }
    destruct Hsub as (chunks & Hchunks & Hperm').
    exists (infos :: chunks). split.
    + cbn [walk_node for_each]. rewrite Hinfos. cbn [bind].
      rewrite Hchunks. reflexivity.
    + cbn [List.concat descendants].
      rewrite <- (Permutation_flat_map_cons
                    (fun e => (join top (fst e), fst e, snd e))
                    (fun e => descendants (join top (fst e)) (snd e))).
      rewrite map_app, map_map. now apply Permutation_app.
Qed.

End Walk.

(** Scanning a subdirectory by its path, as [os.walk] does, is the walk
    of the entry. *)
Lemma os_walk_subdirectory cwd fs top st entries (e : str * node) :
  resolve fs cwd top = Some (Dir st entries) ->
  well_formed (Dir st entries) = true ->
  In e entries ->
  os_walk cwd fs (join top (fst e)) = walk_node (join top (fst e)) (snd e).
Proof.
  intros Hres Hwf He.
  destruct (well_formed_Dir _ _ Hwf) as (Hdistinct & Hentries).
  destruct (Hentries e He) as (Hname & _).
  unfold os_walk.
  now rewrite (resolve_child _ _ _ _ _ _ _ Hres Hname
                 (lookup_entry_distinct _ _ Hdistinct He)).
Qed.

Lemma info_of_path validate_modified (d : str * str * node) :
  FileInfo.path (info_of validate_modified d) = fst (fst d).
Proof. now destruct d as [[path name] n]. Qed.

Lemma info_of_is_dir validate_modified (d : str * str * node) :
  FileInfo.is_dir (info_of validate_modified d) = is_dir_node (snd d).
Proof. now destruct d as [[path name] n]. Qed.

(** * Further properties of the handlers *)

(** ** What the handlers answer *)

Lemma safe_path_Raise base cwd path e :
  safe_path base cwd path = Raise e ->
  exists b, base = Some b /\ b <> [] /\ e = HTTPException 403 (OutsideOf b)
            /\ startswith (abspath cwd path) (abspath cwd b) = false.
Proof.
  destruct base as [[|c b]|]; try discriminate.
  rewrite safe_path_configured.
  destruct (startswith _ _) eqn:E; [discriminate|].
  intros [= <-]. exists (c :: b). repeat split; [discriminate|exact E].
Qed.

Lemma safe_path_Return base cwd path q :
  safe_path base cwd path = Return q -> q = abspath cwd path.
Proof.
  destruct base as [[|c b]|]; try (now intros [= <-]).
  rewrite safe_path_configured. destruct (startswith _ _); [|discriminate].
  now intros [= <-].
Qed.

(** X6: A path that the guard refuses is answered 403 by both handlers,
    whatever the file system holds and whatever else is requested. *)
Theorem refused_path_answer base cwd path e :
  safe_path base cwd path = Raise e ->
  (exists b, e = HTTPException 403 (OutsideOf b))
  /\ (forall validate_modified fs recursive,
        list_files base cwd validate_modified fs
          {| FileListRequest.path := path; FileListRequest.recursive := recursive |}
        = Raise e)
  /\ (forall codecs_lookup fs encoding,
        read_file base cwd codecs_lookup fs
          {| FileRequest.path := path; FileRequest.encoding := encoding |}
        = Raise e).
Proof.
  intros H. destruct (safe_path_Raise _ _ _ _ H) as (b & _ & _ & -> & _).
  split; [eauto|]. split; intros.
  - unfold list_files. cbn [FileListRequest.path]. now rewrite H.
  - unfold read_file. cbn [FileRequest.path]. now rewrite H.
Qed.

Lemma refused_path_answer_witness :
  read_file (Some (lit "/data")) (lit "/srv") builtin_codecs sample_fs
    {| FileRequest.path := lit "/data/../etc/passwd"; FileRequest.encoding := None |}
  = Raise (HTTPException 403 (OutsideOf (lit "/data")))
  /\ list_files (Some (lit "/data")) (lit "/srv") coerce_number sample_fs
       {| FileListRequest.path := lit "/nowhere"; FileListRequest.recursive := None |}
     = Raise (HTTPException 403 (OutsideOf (lit "/data"))).
Proof.
  split.
  - apply (refused_path_answer (Some (lit "/data")) (lit "/srv")
             (lit "/data/../etc/passwd")
             (HTTPException 403 (OutsideOf (lit "/data")))).
    reflexivity.
  - apply (refused_path_answer (Some (lit "/data")) (lit "/srv")
             (lit "/nowhere")
             (HTTPException 403 (OutsideOf (lit "/data")))).
    reflexivity.
Defined.

Lemma collect_files_cases cwd validate_modified fs path recursive :
  (exists files, collect_files cwd validate_modified fs path recursive = Return files)
  \/ (exists e, collect_files cwd validate_modified fs path recursive = Raise (Error e)).
Proof.
  pose proof (collect_files_no_status cwd validate_modified fs path recursive) as H.
  destruct (collect_files _ _ _ _ _) as [files|[c d|e]]; eauto. discriminate.
Qed.

(** X7: [list_files] raises nothing but an [HTTPException], with status 403,
    404 or 500; [read_file] likewise, with status 400, 403, 404 or 500. *)
Theorem handlers_raise_http_only base cwd codecs_lookup validate_modified fs :
  (forall request,
     match list_files base cwd validate_modified fs request with
     | Return _ => True
     | Raise (HTTPException code _) => code = 403 \/ code = 404 \/ code = 500
     | Raise (Error _) => False
     end%Z)
  /\ (forall request,
        match read_file base cwd codecs_lookup fs request with
        | Return _ => True
        | Raise (HTTPException code _) =>
            code = 400 \/ code = 403 \/ code = 404 \/ code = 500
        | Raise (Error _) => False
        end%Z).
Proof.
  split; intros request.
  - unfold list_files.
    destruct (safe_path base cwd (FileListRequest.path request)) as [p|e] eqn:Hs.
    + cbn [bind]. destruct (os_path_exists cwd fs p); cbn [negb].
      * destruct (collect_files_cases cwd validate_modified fs p
                    (FileListRequest.recursive request)) as [(files & ->)|(e & ->)];
          cbn; auto.
      * cbn. auto.
    + destruct (safe_path_Raise _ _ _ _ Hs) as (b & _ & _ & -> & _). cbn. auto.
  - unfold read_file.
    destruct (safe_path base cwd (FileRequest.path request)) as [p|e] eqn:Hs.
    + cbn [bind]. destruct (os_path_exists cwd fs p); cbn [negb]; [|cbn; auto].
      destruct (os_path_isdir cwd fs p); [cbn; auto|].
      unfold open_r_read, open_rb_read.
      destruct (resolve fs cwd p) as [[data mtime|st entries]|]; cbn; auto.
      destruct (codecs_lookup _) as [decode|]; cbn; auto.
      destruct (decode data) as [[]|text]; cbn; auto.
      rewrite ascii_decode_b64encode. cbn. auto.
    + destruct (safe_path_Raise _ _ _ _ Hs) as (b & _ & _ & -> & _). cbn. auto.
Qed.

Lemma resolve_exists_isdir cwd fs path :
  (os_path_exists cwd fs path = false -> os_path_isdir cwd fs path = false)
  /\ (os_path_exists cwd fs path = true -> os_path_isdir cwd fs path = false ->
      exists data mtime, resolve fs cwd path = Some (File data mtime)).
Proof.
  unfold os_path_exists, os_path_isdir.
  destruct (resolve fs cwd path) as [[data mtime|st entries]|]; cbn;
    split; try discriminate; eauto.
Qed.

Lemma read_file_regular_status base cwd codecs_lookup fs request path data mtime :
  safe_path base cwd (FileRequest.path request) = Return path ->
  resolve fs cwd path = Some (File data mtime) ->
  status_code_of (read_file base cwd codecs_lookup fs request) = None
  \/ status_code_of (read_file base cwd codecs_lookup fs request) = Some 500%Z.
Proof.
  intros Hs Hr. rewrite (read_file_regular _ _ _ _ _ _ _ _ Hs Hr). cbv zeta.
  destruct (codecs_lookup _) as [decode|]; [|now right].
  destruct (decode data) as [[]|text]; cbn; auto.
Qed.

(** X8: For a path that the guard lets through, [list_files] and [read_file]
    answer 404 exactly when nothing has that path, and [read_file] answers
    400 exactly when it is a directory. *)
Theorem not_found_and_directory_exactly
    base cwd codecs_lookup validate_modified fs path :
  (forall request,
     safe_path base cwd (FileListRequest.path request) = Return path ->
     (status_code_of (list_files base cwd validate_modified fs request) = Some 404%Z
      <-> os_path_exists cwd fs path = false))
  /\ (forall request,
        safe_path base cwd (FileRequest.path request) = Return path ->
        (status_code_of (read_file base cwd codecs_lookup fs request) = Some 404%Z
         <-> os_path_exists cwd fs path = false)
        /\ (status_code_of (read_file base cwd codecs_lookup fs request) = Some 400%Z
            <-> os_path_isdir cwd fs path = true)).
Proof.
  split; intros request Hs.
  - unfold list_files. rewrite Hs. cbn [bind].
    destruct (os_path_exists cwd fs path); cbn [negb].
    + destruct (collect_files_cases cwd validate_modified fs path
                  (FileListRequest.recursive request)) as [(files & ->)|(e & ->)];
        cbn; split; discriminate.
    + cbn. split; reflexivity.
  - destruct (resolve_exists_isdir cwd fs path) as (Hmissing & Hfile).
    destruct (os_path_exists cwd fs path) eqn:He.
    + destruct (os_path_isdir cwd fs path) eqn:Hd.
      * unfold read_file. rewrite Hs. cbn [bind]. rewrite He, Hd. cbn.
        repeat split; discriminate || reflexivity.
      * destruct (Hfile eq_refl eq_refl) as (data & mtime & Hr).
        destruct (read_file_regular_status base cwd codecs_lookup fs request
                    path data mtime Hs Hr) as [-> | ->];
          repeat split; discriminate.
    + rewrite (Hmissing eq_refl).
      unfold read_file. rewrite Hs. cbn [bind]. rewrite He. cbn.
      repeat split; discriminate || reflexivity.
Qed.

Lemma not_found_and_directory_exactly_witness :
  (status_code_of
     (list_files None (lit "/srv") coerce_number sample_fs
        {| FileListRequest.path := lit "/data/absent";
           FileListRequest.recursive := None |}) = Some 404%Z
   <-> os_path_exists (lit "/srv") sample_fs (lit "/data/absent") = false)
  /\ (status_code_of
        (read_file None (lit "/srv") builtin_codecs sample_fs
           {| FileRequest.path := lit "/data/sub"; FileRequest.encoding := None |})
      = Some 400%Z
      <-> os_path_isdir (lit "/srv") sample_fs (lit "/data/sub") = true).
Proof.
  split.
  - apply (not_found_and_directory_exactly None (lit "/srv") builtin_codecs
             coerce_number sample_fs (lit "/data/absent")).
    reflexivity.
  - apply (proj2 (not_found_and_directory_exactly None (lit "/srv") builtin_codecs
                    coerce_number sample_fs (lit "/data/sub"))
             {| FileRequest.path := lit "/data/sub"; FileRequest.encoding := None |}).
    reflexivity.
Defined.

(** X9: An answer with content comes only for a path that the guard lets
    through: a listing only if the path exists, a read only if it is a
    regular file. *)
Theorem success_needs_guard_and_node base cwd codecs_lookup validate_modified fs :
  (forall request response,
     list_files base cwd validate_modified fs request = Return response ->
     safe_path base cwd (FileListRequest.path request)
     = Return (abspath cwd (FileListRequest.path request))
     /\ os_path_exists cwd fs (abspath cwd (FileListRequest.path request)) = true)
  /\ (forall request response,
        read_file base cwd codecs_lookup fs request = Return response ->
        safe_path base cwd (FileRequest.path request)
        = Return (abspath cwd (FileRequest.path request))
        /\ exists data mtime,
             resolve fs cwd (abspath cwd (FileRequest.path request))
             = Some (File data mtime)).
Proof.
  split; intros request response H.
  - unfold list_files in H. apply except_Exception_Return in H.
    apply bind_Return in H as (p & Hs & H).
    pose proof (safe_path_Return _ _ _ _ Hs) as ->.
    split; [exact Hs|].
    destruct (os_path_exists cwd fs _); [reflexivity|discriminate].
  - unfold read_file in H. apply except_Exception_Return in H.
    apply bind_Return in H as (p & Hs & H).
    pose proof (safe_path_Return _ _ _ _ Hs) as ->.
    split; [exact Hs|].
    destruct (resolve_exists_isdir cwd fs (abspath cwd (FileRequest.path request)))
      as (_ & Hfile).
    destruct (os_path_exists cwd fs _); cbn [negb] in H; [|discriminate].
    destruct (os_path_isdir cwd fs _); [discriminate|].
    now apply Hfile.
Qed.

Lemma success_needs_guard_and_node_witness :
  exists data mtime,
    resolve sample_fs (lit "/srv") (abspath (lit "/srv") (lit "/data/./blob.bin"))
    = Some (File data mtime).
Proof.
  apply (success_needs_guard_and_node (Some (lit "/data")) (lit "/srv")
           builtin_codecs coerce_number sample_fs)
    with (request := {| FileRequest.path := lit "/data/./blob.bin";
                        FileRequest.encoding := None |})
         (response := {| FileContentResponse.content := lit "/wAQ";
                         FileContentResponse.encoding := lit "base64" |}).
  reflexivity.
Defined.

(** ** The routes behind the gate *)

Lemma get_api_key_cases (secret api_key : option str) :
  (truthy secret = false \/ api_key = secret ->
   exists key, get_api_key secret api_key = Return key)
  /\ (truthy secret = true -> api_key <> secret ->
      get_api_key secret api_key
      = Raise (HTTPException 403 (Text (lit "Invalid API key")))).
Proof.
  unfold get_api_key. split.
  - intros [Hs | ->].
    + rewrite Hs. cbn. eauto.
    + destruct (truthy secret) eqn:Hs; cbn; [|eauto].
      destruct secret as [k|]; [|discriminate].
      cbn [option_str_eqb]. rewrite str_eqb_refl. eauto.
  - intros Hs Hne. rewrite Hs. cbn [negb].
    destruct (truthy api_key) eqn:Ha; [|reflexivity]. cbn [andb].
    destruct api_key as [a|], secret as [k|]; try discriminate.
    cbn [option_str_eqb]. destruct (str_eqb a k) eqn:E; [|reflexivity].
    apply str_eqb_eq in E. congruence.
Qed.

(** X10: With a non-empty secret configured, a request whose header is not the
    secret is answered 403 by every route before the handler runs, so the
    answer tells nothing about the path; a request that passes the gate is
    answered by the handler alone. *)
Theorem routes_behind_gate
    (MCP_API_KEY api_key MCP_BASE_PATH : option str) getcwd
    codecs_lookup validate_modified fs :
  (truthy MCP_API_KEY = true -> api_key <> MCP_API_KEY ->
   read_root MCP_API_KEY api_key
   = Raise (HTTPException 403 (Text (lit "Invalid API key")))
   /\ (forall request,
         POST_list MCP_API_KEY MCP_BASE_PATH getcwd validate_modified fs
           api_key request
         = Raise (HTTPException 403 (Text (lit "Invalid API key"))))
   /\ (forall request,
         POST_read MCP_API_KEY MCP_BASE_PATH getcwd codecs_lookup fs
           api_key request
         = Raise (HTTPException 403 (Text (lit "Invalid API key")))))
  /\ (truthy MCP_API_KEY = false \/ api_key = MCP_API_KEY ->
      read_root MCP_API_KEY api_key
      = Return [(lit "status", lit "Filesystem MCP server is running")]
      /\ (forall request,
            POST_list MCP_API_KEY MCP_BASE_PATH getcwd validate_modified fs
              api_key request
            = list_files MCP_BASE_PATH getcwd validate_modified fs request)
      /\ (forall request,
            POST_read MCP_API_KEY MCP_BASE_PATH getcwd codecs_lookup fs
              api_key request
            = read_file MCP_BASE_PATH getcwd codecs_lookup fs request)).
Proof.
  destruct (get_api_key_cases MCP_API_KEY api_key) as (Hpass & Hrefuse).
  unfold read_root, POST_list, POST_read. split.
  - intros Hs Hne. rewrite (Hrefuse Hs Hne). repeat split.
  - intros H. destruct (Hpass H) as (key & ->). repeat split.
Qed.

Lemma routes_behind_gate_witness :
  POST_read (Some (lit "s3cret")) None (lit "/srv") builtin_codecs sample_fs
    (Some (lit "guess"))
    {| FileRequest.path := lit "/data/hello.txt"; FileRequest.encoding := None |}
  = Raise (HTTPException 403 (Text (lit "Invalid API key")))
  /\ POST_list (Some (lit "s3cret")) None (lit "/srv") coerce_number sample_fs
       (Some (lit "s3cret"))
       {| FileListRequest.path := lit "/data2"; FileListRequest.recursive := None |}
     = list_files None (lit "/srv") coerce_number sample_fs
         {| FileListRequest.path := lit "/data2"; FileListRequest.recursive := None |}.
Proof.
  split.
  - apply (routes_behind_gate (Some (lit "s3cret")) (Some (lit "guess")) None
             (lit "/srv") builtin_codecs coerce_number sample_fs);
      [reflexivity|discriminate].
  - apply (routes_behind_gate (Some (lit "s3cret")) (Some (lit "s3cret")) None
             (lit "/srv") builtin_codecs coerce_number sample_fs).
    now right.
Defined.

(** ** The content of a read *)

Lemma universal_newlines_no_CR_upto (n : nat) :
  forall s, (List.length s <= n)%nat -> ~ In 13 (universal_newlines s).
Proof.
  induction n as [|n IH]; intros [|c s] Hlen; cbn [universal_newlines];
    try (intros []); try (simpl in Hlen; lia).
  simpl in Hlen.
  destruct (c =? 13) eqn:Ec.
  - intros [Heq|Hin]; [discriminate|].
    destruct s as [|d s]; [destruct Hin|].
    destruct (d =? 10); revert Hin; apply IH; simpl in *; lia.
  - intros [Heq|Hin].
    + apply N.eqb_neq in Ec. congruence.
    + revert Hin. apply IH. lia.
Qed.

Lemma universal_newlines_no_CR (s : str) : ~ In 13 (universal_newlines s).
Proof. apply (universal_newlines_no_CR_upto (List.length s)). lia. Qed.

Lemma universal_newlines_without_CR (s : str) :
  ~ In 13 s -> universal_newlines s = s.
Proof.
  induction s as [|c s IH]; intros H; [reflexivity|].
  cbn [universal_newlines].
  destruct (c =? 13) eqn:Ec.
  - apply N.eqb_eq in Ec. elim H. now left.
  - f_equal. apply IH. intros Hin. apply H. now right.
Qed.

Lemma b64encode_alphabet (s : bytes) :
  Forall (fun b => In b (BASE64_PAD :: table_b2a_base64)) (b64encode s).
Proof.
  assert (Hb2a : forall i, In (b2a i) (BASE64_PAD :: table_b2a_base64)).
  { intros i. unfold b2a.
    destruct (nth_in_or_default (N.to_nat i) table_b2a_base64 BASE64_PAD)
      as [Hin | ->]; [now right|now left]. }
  assert (Hpad : In BASE64_PAD (BASE64_PAD :: table_b2a_base64)) by now left.
  induction s as [|a|a b|a b c rest IH] using bytes_ind3;
    cbn [b64encode]; repeat (apply Forall_cons; [auto|]); auto.
Qed.

(** X11: No content that [read_file] returns holds a carriage return: a text
    answer has its line ends translated, a base64 answer is over the
    base64 alphabet. *)
Theorem read_file_content_without_CR
    base cwd codecs_lookup fs request response :
  read_file base cwd codecs_lookup fs request = Return response ->
  ~ In 13 (FileContentResponse.content response).
Proof.
  intros H.
  assert (Hs : exists p data mtime,
             safe_path base cwd (FileRequest.path request) = Return p
             /\ resolve fs cwd p = Some (File data mtime)).
  { pose proof H as H'. unfold read_file in H'.
    apply except_Exception_Return in H'.
    apply bind_Return in H' as (p & Hs & H').
    destruct (resolve_exists_isdir cwd fs p) as (_ & Hfile).
    destruct (os_path_exists cwd fs p); cbn [negb] in H'; [|discriminate].
    destruct (os_path_isdir cwd fs p); [discriminate|].
    destruct (Hfile eq_refl eq_refl) as (data & mtime & Hr). eauto. }
  destruct Hs as (p & data & mtime & Hs & Hr).
  rewrite (read_file_regular _ _ _ _ _ _ _ _ Hs Hr) in H. cbv zeta in H.
  destruct (codecs_lookup _) as [decode|]; [|discriminate].
  destruct (decode data) as [[]|text]; try discriminate;
    injection H as <-; cbn [FileContentResponse.content].
  - intros Hin. apply in_map_iff in Hin as (b & Hb & Hin).
    pose proof (b64encode_alphabet data) as Halpha.
    rewrite Forall_forall in Halpha. specialize (Halpha b Hin).
    revert Hb. clear -Halpha.
    repeat (destruct Halpha as [<-|Halpha]; [vm_compute; discriminate|]).
    destruct Halpha.
  - apply universal_newlines_no_CR.
Qed.

Lemma read_file_content_without_CR_witness :
  ~ In 13 [97; 10; 98].
Proof.
  apply (read_file_content_without_CR None (lit "/srv") builtin_codecs sample_fs
           {| FileRequest.path := lit "/data/sub/crlf.txt";
              FileRequest.encoding := None |}
           {| FileContentResponse.content := [97; 10; 98];
              FileContentResponse.encoding := lit "utf-8" |}).
  reflexivity.
Defined.

Lemma utf_8_decode_ascii (s : bytes) :
  forallb (fun b => to_N b <? 128) s = true ->
  utf_8_decode s = Some (map to_N s).
Proof.
  induction s as [|b s IH]; intros H; [reflexivity|].
  cbn [forallb] in H. apply andb_prop in H as [Hb Hs].
  cbn [utf_8_decode map]. rewrite Hb. now rewrite (IH Hs).
Qed.

(** X12: A file of ASCII bytes without carriage return, read without an
    encoding or as ["utf-8"], is returned character for character. *)
Theorem read_file_ascii_unchanged
    base cwd codecs_lookup fs request path data mtime :
  safe_path base cwd (FileRequest.path request) = Return path ->
  resolve fs cwd path = Some (File data mtime) ->
  or_default (FileRequest.encoding request) (lit "utf-8") = lit "utf-8" ->
  codecs_lookup (lit "utf-8") = Some (strict utf_8_decode) ->
  forallb (fun b => to_N b <? 128) data = true ->
  ~ In x0d data ->
  read_file base cwd codecs_lookup fs request
  = Return {| FileContentResponse.content := map to_N data;
              FileContentResponse.encoding := lit "utf-8" |}.
Proof.
  intros Hs Hr Henc Hcodec Hascii Hcr.
  rewrite (read_file_regular _ _ _ _ _ _ _ _ Hs Hr). cbv zeta.
  rewrite Henc, Hcodec. unfold strict. rewrite (utf_8_decode_ascii _ Hascii).
  rewrite universal_newlines_without_CR; [reflexivity|].
  intros Hin. apply in_map_iff in Hin as (b & Hb & Hin).
  apply Hcr. replace x0d with b; [exact Hin|].
  apply (f_equal of_N) in Hb. rewrite of_to_N in Hb.
  change (of_N 13) with (Some x0d) in Hb. congruence.
Qed.

Lemma read_file_ascii_unchanged_witness :
  read_file (Some (lit "/data")) (lit "/srv") builtin_codecs sample_fs
    {| FileRequest.path := lit "/data/hello.txt";
       FileRequest.encoding := Some (lit "utf-8") |}
  = Return {| FileContentResponse.content := lit "hello" ++ [10];
              FileContentResponse.encoding := lit "utf-8" |}.
Proof.
  apply (read_file_ascii_unchanged (Some (lit "/data")) (lit "/srv")
           builtin_codecs sample_fs
           {| FileRequest.path := lit "/data/hello.txt";
              FileRequest.encoding := Some (lit "utf-8") |}
           (lit "/data/hello.txt") (list_byte_of_string "hello" ++ [x0a]) 111%Z);
    try reflexivity.
  vm_compute. intros H. repeat (destruct H as [H|H]; [discriminate H|]).
  exact H.
Defined.

(** ** The listing of one directory *)

Section Listing.

Variable cwd : str.
Variable validate_modified : Z -> option str.
Variable fs : node.

Hypothesis validate_total : forall mtime, validate_modified mtime <> None.

Lemma item_info_child (top : str) (e : str * node) :
  resolve fs cwd (join top (fst e)) = Some (snd e) ->
  item_info cwd validate_modified fs top (fst e)
  = Return (entry_info validate_modified top e).
Proof.
  intros Hres. unfold item_info, os_stat, os_path_isdir. rewrite Hres.
  cbn [bind]. now rewrite (FileInfo_new_total _ validate_total).
Qed.

Lemma entries_resolve top st entries :
  resolve fs cwd top = Some (Dir st entries) ->
  distinct (map fst entries) = true ->
  forallb valid_name (map fst entries) = true ->
  forall e, In e entries -> resolve fs cwd (join top (fst e)) = Some (snd e).
Proof.
  intros Hres Hdistinct Hvalid e He.
  eapply resolve_child; eauto.
  - rewrite forallb_forall in Hvalid. apply Hvalid. now apply in_map.
  - now apply lookup_entry_distinct.
Qed.

(** The non-recursive branch lists the entries in enumeration order. *)
Lemma collect_files_flat top st entries recursive :
  resolve fs cwd top = Some (Dir st entries) ->
  distinct (map fst entries) = true ->
  forallb valid_name (map fst entries) = true ->
  recursive <> Some true ->
  collect_files cwd validate_modified fs top recursive
  = Return (map (entry_info validate_modified top) entries).
Proof.
  intros Hres Hdistinct Hvalid Hrec.
  assert (Hflat : (items <- os_listdir cwd fs top ;;
                   for_each (item_info cwd validate_modified fs top) items)
                  = Return (map (entry_info validate_modified top) entries)).
  { unfold os_listdir. rewrite Hres. cbn [bind].
    apply for_each_map. intros e He. apply item_info_child.
    eapply entries_resolve; eauto. }
  unfold collect_files. destruct recursive as [[|]|]; auto. now elim Hrec.
Qed.

(** The recursive branch on a directory without subdirectories. *)
Lemma collect_files_recursive_no_subdirectory top st entries :
  resolve fs cwd top = Some (Dir st entries) ->
  distinct (map fst entries) = true ->
  forallb valid_name (map fst entries) = true ->
  forallb (fun e => negb (is_dir_node (snd e))) entries = true ->
  collect_files cwd validate_modified fs top (Some true)
  = Return (map (entry_info validate_modified top) entries).
Proof.
  intros Hres Hdistinct Hvalid Hfiles.
  unfold collect_files, os_walk. rewrite Hres. cbn [walk_node].
  assert (Hnone : filter (fun e => is_dir_node (snd e)) entries = []).
  { clear -Hfiles. induction entries as [|e es IH]; [reflexivity|].
    cbn [forallb] in Hfiles. apply andb_prop in Hfiles as [He Hes].
    cbn [filter]. apply negb_true_iff in He. rewrite He. auto. }
  assert (Hall : filter (fun e => negb (is_dir_node (snd e))) entries = entries).
  { clear -Hfiles. induction entries as [|e es IH]; [reflexivity|].
    cbn [forallb] in Hfiles. apply andb_prop in Hfiles as [He Hes].
    cbn [filter]. rewrite He. f_equal. auto. }
  assert (Hsub : flat_map (fun e => if is_dir_node (snd e)
                                    then walk_node (join top (fst e)) (snd e)
                                    else []) entries = []).
  { clear -Hfiles. induction entries as [|e es IH]; [reflexivity|].
    cbn [forallb] in Hfiles. apply andb_prop in Hfiles as [He Hes].
    cbn [flat_map]. apply negb_true_iff in He. rewrite He. cbn [app]. auto. }
  rewrite Hsub. cbn [for_each]. unfold walk_infos, walk_dirs, walk_nondirs.
  rewrite Hnone, Hall. cbn [map for_each bind].
  rewrite (for_each_map _ fst (entry_info validate_modified top)).
  - cbn [bind List.concat app]. now rewrite app_nil_r.
  - intros e He. apply file_info_child; auto.
    + eapply entries_resolve; eauto.
    + rewrite forallb_forall in Hfiles. apply negb_true_iff. now apply Hfiles.
Qed.

End Listing.

(** X14: A non-recursive listing of a directory returns one [FileInfo] for each
    of its entries and no other, in the order of enumeration, each with
    the entry's name, its path joined to the listed path, and its kind. *)
Theorem list_files_flat_exact
    base cwd validate_modified fs request top st entries :
  (forall mtime, validate_modified mtime <> None) ->
  safe_path base cwd (FileListRequest.path request) = Return top ->
  resolve fs cwd top = Some (Dir st entries) ->
  distinct (map fst entries) = true ->
  forallb valid_name (map fst entries) = true ->
  FileListRequest.recursive request <> Some true ->
  list_files base cwd validate_modified fs request
  = Return {| FileListResponse.files :=
                map (entry_info validate_modified top) entries |}
  /\ map FileInfo.name (map (entry_info validate_modified top) entries)
     = map fst entries
  /\ map FileInfo.is_dir (map (entry_info validate_modified top) entries)
     = map (fun e => is_dir_node (snd e)) entries.
Proof.
  intros Hval Hs Hres Hdistinct Hvalid Hrec. split; [|split].
  - unfold list_files. rewrite Hs. cbn [bind].
    unfold os_path_exists. rewrite Hres. cbn [negb].
    now rewrite (collect_files_flat cwd validate_modified fs Hval top st entries).
  - rewrite map_map. apply map_ext. now intros [name n].
  - rewrite map_map. apply map_ext. now intros [name n].
Qed.

Lemma list_files_flat_exact_witness :
  list_files (Some (lit "/data")) (lit "/srv") coerce_number sample_fs
    {| FileListRequest.path := lit "/data/sub";
       FileListRequest.recursive := Some false |}
  = Return {| FileListResponse.files :=
     [ {| FileInfo.name := lit "deep"; FileInfo.path := lit "/data/sub/deep";
          FileInfo.is_dir := true; FileInfo.size := None;
          FileInfo.modified := Some (lit "113.0") |};
       {| FileInfo.name := lit "crlf.txt"; FileInfo.path := lit "/data/sub/crlf.txt";
          FileInfo.is_dir := false; FileInfo.size := Some 4%Z;
          FileInfo.modified := Some (lit "114.0") |} ] |}.
Proof.
  apply (list_files_flat_exact (Some (lit "/data")) (lit "/srv") coerce_number
           sample_fs
           {| FileListRequest.path := lit "/data/sub";
              FileListRequest.recursive := Some false |}
           (lit "/data/sub") (at_time 112)
           [ (lit "deep", Dir (at_time 113) []);
             (lit "crlf.txt", File [x61; x0d; x0a; x62] 114) ]);
    try reflexivity; discriminate.
Defined.

(** X15: Listing a regular file: the recursive mode answers with an empty
    list, the non-recursive mode with status 500. *)
Theorem list_files_of_file
    base cwd validate_modified fs request path data mtime :
  safe_path base cwd (FileListRequest.path request) = Return path ->
  resolve fs cwd path = Some (File data mtime) ->
  (FileListRequest.recursive request = Some true ->
   list_files base cwd validate_modified fs request
   = Return {| FileListResponse.files := [] |})
  /\ (FileListRequest.recursive request <> Some true ->
      list_files base cwd validate_modified fs request
      = Raise (HTTPException 500 (StrOf NotADirectoryError))).
Proof.
  intros Hs Hres. unfold list_files. rewrite Hs. cbn [bind].
  unfold os_path_exists, collect_files, os_walk, os_listdir. rewrite Hres.
  cbn [negb]. split.
  - intros ->. reflexivity.
  - intros Hrec. destruct (FileListRequest.recursive request) as [[|]|];
      [now elim Hrec|reflexivity|reflexivity].
Qed.

Lemma list_files_of_file_witness :
  list_files None (lit "/srv") reject_number sample_fs
    {| FileListRequest.path := lit "/data2/secret";
       FileListRequest.recursive := Some true |}
  = Return {| FileListResponse.files := [] |}
  /\ list_files None (lit "/srv") reject_number sample_fs
       {| FileListRequest.path := lit "/data2/secret";
          FileListRequest.recursive := Some false |}
     = Raise (HTTPException 500 (StrOf NotADirectoryError)).
Proof.
  split.
  - apply (list_files_of_file None (lit "/srv") reject_number sample_fs
             {| FileListRequest.path := lit "/data2/secret";
                FileListRequest.recursive := Some true |}
             (lit "/data2/secret") (list_byte_of_string "top secret") 121%Z);
      reflexivity.
  - apply (list_files_of_file None (lit "/srv") reject_number sample_fs
             {| FileListRequest.path := lit "/data2/secret";
                FileListRequest.recursive := Some false |}
             (lit "/data2/secret") (list_byte_of_string "top secret") 121%Z);
      try reflexivity; discriminate.
Defined.

Lemma well_formed_names st entries :
  well_formed (Dir st entries) = true ->
  distinct (map fst entries) = true
  /\ forallb valid_name (map fst entries) = true.
Proof.
  intros Hwf. destruct (well_formed_Dir _ _ Hwf) as (Hdistinct & Hentries).
  split; [exact Hdistinct|]. apply forallb_forall. intros name Hin.
  apply in_map_iff in Hin as (e & <- & He). now apply Hentries.
Qed.

(** ** Canonical paths *)

Lemma split_without_sep (s : str) :
  Forall (fun w => forallb (fun c => negb (c =? sep)) w = true) (split sep s).
Proof.
  induction s as [|c s IH]; cbn [split].
  - repeat constructor.
  - destruct (c =? sep) eqn:Ec.
    + constructor; [reflexivity|exact IH].
    + destruct (split sep s) as [|w ws]; [repeat constructor; cbn; now rewrite Ec|].
      inversion IH as [|? ? Hw Hws]; subst.
      constructor; [|exact Hws]. cbn [forallb]. now rewrite Ec, Hw.
Qed.

Lemma valid_name_intro (comp : str) :
  str_eqb comp [] = false -> str_eqb comp dot = false ->
  str_eqb comp dotdot = false ->
  forallb (fun c => negb (c =? sep)) comp = true ->
  valid_name comp = true.
Proof. intros H1 H2 H3 H4. unfold valid_name. now rewrite H1, H2, H3, H4. Qed.

Lemma forallb_removelast {A} (f : A -> bool) (l : list A) :
  forallb f l = true -> forallb f (removelast l) = true.
Proof.
  destruct l as [|x l] using rev_ind; [auto|].
  rewrite removelast_last, forallb_app. intros H.
  now apply andb_prop in H.
Qed.

Lemma last_valid_name (acc : list str) :
  forallb valid_name acc = true ->
  match acc with
  | [] => false
  | _ => str_eqb (last acc []) dotdot
  end = false.
Proof.
  destruct acc as [|x l] using rev_ind; [reflexivity|].
  rewrite forallb_app, last_last. intros H. apply andb_prop in H as [_ H].
  cbn [forallb] in H. rewrite andb_true_r in H.
  apply valid_name_inv in H as (_ & _ & H & _). rewrite H.
  now destruct (l ++ [x]).
Qed.

(** With a leading slash, the loop of [normpath] keeps nothing but
    names. *)
Lemma normpath_loop_valid (k : N) (comps acc : list str) :
  k <> 0 ->
  Forall (fun w => forallb (fun c => negb (c =? sep)) w = true) comps ->
  forallb valid_name acc = true ->
  forallb valid_name (normpath_loop k acc comps) = true.
Proof.
  intros Hk Hcomps. revert acc.
  induction Hcomps as [|comp comps Hcomp _ IH]; intros acc Hacc; cbn [normpath_loop].
  - exact Hacc.
  - destruct (str_eqb comp []) eqn:E1; cbn [orb]; [now apply IH|].
    destruct (str_eqb comp dot) eqn:E2; [now apply IH|].
    apply N.eqb_neq in Hk. rewrite Hk. cbn [andb].
    rewrite (last_valid_name acc Hacc), !orb_false_r.
    destruct (str_eqb comp dotdot) eqn:E3; cbn [negb].
    + apply IH. now apply forallb_removelast.
    + apply IH. rewrite forallb_app, Hacc. cbn [forallb andb].
      now rewrite (valid_name_intro comp E1 E2 E3 Hcomp).
Qed.

Lemma normpath_loop_names (k : N) (comps acc : list str) :
  forallb valid_name comps = true ->
  normpath_loop k acc comps = acc ++ comps.
Proof.
  revert acc. induction comps as [|comp comps IH]; intros acc H; cbn [normpath_loop].
  - now rewrite app_nil_r.
  - cbn [forallb] in H. apply andb_prop in H as [Hcomp Hcomps].
    apply valid_name_inv in Hcomp as (E1 & E2 & E3 & _).
    rewrite E1, E2, E3. cbn [orb negb].
    rewrite (IH _ Hcomps). now rewrite <- app_assoc.
Qed.

Lemma normpath_loop_skip_empty (k : N) (n : nat) (comps acc : list str) :
  normpath_loop k acc (repeat [] n ++ comps) = normpath_loop k acc comps.
Proof. induction n as [|n IH]; [reflexivity|exact IH]. Qed.

Lemma split_repeat_sep (n : nat) (s : str) :
  split sep (repeat sep n ++ s) = repeat [] n ++ split sep s.
Proof.
  induction n as [|n IH]; [reflexivity|].
  cbn [repeat app]. change (split sep (sep :: repeat sep n ++ s))
    with ([] :: split sep (repeat sep n ++ s)).
  now rewrite IH.
Qed.

Lemma split_join_sep (comps : list str) :
  comps <> [] ->
  forallb valid_name comps = true ->
  split sep (join_sep sep comps) = comps.
Proof.
  induction comps as [|w comps IH]; intros Hne H; [now elim Hne|].
  cbn [forallb] in H. apply andb_prop in H as [Hw Hcomps].
  apply valid_name_inv in Hw as (_ & _ & _ & Hw).
  destruct comps as [|w' comps].
  - cbn [join_sep]. now apply split_no_sep.
  - change (join_sep sep (w :: w' :: comps))
      with (w ++ sep :: join_sep sep (w' :: comps)).
    rewrite split_app_sep, (split_no_sep w Hw), IH; [reflexivity|discriminate|exact Hcomps].
Qed.

Lemma join_sep_head (w : str) (ws : list str) :
  exists rest, join_sep sep (w :: ws) = w ++ rest.
Proof.
  destruct ws as [|w' ws].
  - exists []. cbn. now rewrite app_nil_r.
  - eexists. reflexivity.
Qed.

Lemma join_sep_snoc (comps : list str) (w : str) :
  comps <> [] ->
  join_sep sep (comps ++ [w]) = join_sep sep comps ++ sep :: w.
Proof.
  induction comps as [|x comps IH]; intros Hne; [now elim Hne|].
  destruct comps as [|y comps]; [reflexivity|].
  change (join_sep sep ((x :: y :: comps) ++ [w]))
    with (x ++ sep :: join_sep sep ((y :: comps) ++ [w])).
  rewrite IH by discriminate.
  change (join_sep sep (x :: y :: comps))
    with (x ++ sep :: join_sep sep (y :: comps)).
  now rewrite <- app_assoc.
Qed.

Lemma startswith_nil (s : str) : startswith s [] = true.
Proof. now destruct s. Qed.

Lemma startswith_refl_app (p r : str) : startswith (p ++ r) p = true.
Proof.
  induction p as [|c p IH]; [apply startswith_nil|].
  cbn [app startswith]. now rewrite N.eqb_refl, IH.
Qed.

(** The canonical form of a path with a leading slash. *)
Lemma normpath_canonical (path : str) :
  startswith path [sep] = true -> canonical (normpath path).
Proof.
  intros Hstart. destruct path as [|c path]; [discriminate|].
  unfold normpath. rewrite Hstart.
  set (k := if startswith (c :: path) [sep; sep]
                && negb (startswith (c :: path) [sep; sep; sep])
            then 2 else 1).
  assert (Hk : (k = 1 \/ k = 2) /\ k <> 0).
  { subst k. destruct (_ && _); split; auto; discriminate. }
  destruct Hk as (Hk & Hk0).
  cbv zeta.
  assert (Hvalid : forallb valid_name
                     (normpath_loop k [] (split sep (c :: path))) = true).
  { apply normpath_loop_valid; auto. apply split_without_sep. }
  assert (Hform : exists n, (n = 1 \/ n = 2)%nat /\ N.to_nat k = n).
  { destruct Hk as [-> | ->]; [exists 1%nat|exists 2%nat]; auto. }
  destruct Hform as (n & Hn & ->).
  exists n, (normpath_loop k [] (split sep (c :: path))).
  split; [exact Hn|]. split; [exact Hvalid|].
  destruct Hn as [-> | ->]; reflexivity.
Qed.

Lemma canonical_fixed (path : str) : canonical path -> normpath path = path.
Proof.
  intros (n & comps & Hn & Hvalid & ->).
  destruct comps as [|w comps].
  - destruct Hn as [-> | ->]; reflexivity.
  - pose proof Hvalid as Hw. cbn [forallb] in Hw. apply andb_prop in Hw as [Hw _].
    destruct (valid_name_head w Hw) as (c & w' & -> & Hc).
    destruct (join_sep_head (c :: w') comps) as (rest & Hrest).
    assert (Hloop : forall k,
               normpath_loop k []
                 (split sep (repeat sep n ++ join_sep sep ((c :: w') :: comps)))
               = (c :: w') :: comps).
    { intros k. rewrite split_repeat_sep, normpath_loop_skip_empty.
      rewrite split_join_sep by (discriminate || exact Hvalid).
      now apply normpath_loop_names. }
    set (J := join_sep sep ((c :: w') :: comps)) in *.
    assert (HJ : forall pre, startswith (pre ++ J) (pre ++ [sep]) = false).
    { intros pre. rewrite Hrest. clear Hloop.
      change ((c :: w') ++ rest) with (c :: w' ++ rest).
      induction pre as [|x pre IH].
      - cbn [app startswith]. now rewrite Hc.
      - cbn [app startswith]. rewrite IH. apply andb_false_r. }
    destruct Hn as [-> | ->].
    + pose proof (HJ [sep]) as H2. cbn [app] in H2.
      pose proof (startswith_refl_app [sep] J) as H1. cbn [app] in H1.
      unfold normpath. change (repeat sep 1 ++ J) with (sep :: J) in *.
      rewrite Hloop, H1, H2. reflexivity.
    + pose proof (HJ [sep; sep]) as H3. cbn [app] in H3.
      pose proof (startswith_refl_app [sep] (sep :: J)) as H1. cbn [app] in H1.
      pose proof (startswith_refl_app [sep; sep] J) as H2. cbn [app] in H2.
      unfold normpath. change (repeat sep 2 ++ J) with (sep :: sep :: J) in *.
      rewrite Hloop, H1, H2, H3. reflexivity.
Qed.

Lemma from_root_absolute (cwd path : str) :
  startswith cwd [sep] = true -> startswith (from_root cwd path) [sep] = true.
Proof.
  intros Hcwd. unfold from_root. destruct (startswith path [sep]) eqn:Hp; [exact Hp|].
  unfold join. rewrite Hp.
  destruct cwd as [|c cwd]; [discriminate|].
  cbn [startswith] in Hcwd. apply andb_prop in Hcwd as [Hc _].
  destruct (endswith_char (c :: cwd) sep); cbn [app startswith];
    rewrite Hc; apply startswith_nil.
Qed.

Lemma abspath_canonical (cwd path : str) :
  startswith cwd [sep] = true -> canonical (abspath cwd path).
Proof. intros Hcwd. apply normpath_canonical. now apply from_root_absolute. Qed.

Lemma canonical_absolute (path : str) :
  canonical path -> startswith path [sep] = true.
Proof.
  intros (n & comps & [-> | ->] & _ & ->); cbn [repeat app startswith];
    rewrite ?startswith_nil; reflexivity.
Qed.

Lemma abspath_of_canonical (cwd path : str) :
  canonical path -> abspath cwd path = path.
Proof.
  intros H. unfold abspath. rewrite (canonical_absolute _ H).
  now apply canonical_fixed.
Qed.

Lemma canonical_components (path : str) :
  canonical path -> forallb valid_name (components path) = true.
Proof.
  intros (n & comps & _ & Hvalid & ->). unfold components.
  rewrite split_repeat_sep, filter_app.
  assert (Hempty : filter (fun comp => negb (str_eqb comp [])) (repeat [] n) = []).
  { clear. induction n as [|n IH]; [reflexivity|exact IH]. }
  rewrite Hempty. cbn [app].
  destruct comps as [|w comps]; [reflexivity|].
  rewrite split_join_sep by (discriminate || exact Hvalid).
  assert (Hkeep : forall l, forallb valid_name l = true ->
                    filter (fun comp => negb (str_eqb comp [])) l = l).
  { clear. induction l as [|x l IH]; [reflexivity|].
    cbn [forallb filter]. intros H. apply andb_prop in H as [Hx Hl].
    apply valid_name_inv in Hx as (-> & _). cbn [negb]. now rewrite IH. }
  now rewrite Hkeep.
Qed.

Lemma startswith_app_r (s p r : str) :
  startswith s p = true -> startswith (s ++ r) p = true.
Proof.
  revert s. induction p as [|c p IH]; intros s H; [apply startswith_nil|].
  destruct s as [|d s]; [discriminate|].
  cbn [app startswith] in *. apply andb_prop in H as [Hc Hs].
  now rewrite Hc, IH.
Qed.

Lemma startswith_inv (s p : str) :
  startswith s p = true -> exists r, s = p ++ r.
Proof.
  revert s. induction p as [|c p IH]; intros s H; [now exists s|].
  destruct s as [|d s]; [discriminate|].
  cbn [startswith] in H. apply andb_prop in H as [Hc Hs].
  apply N.eqb_eq in Hc. subst d. destruct (IH s Hs) as (r & ->).
  now exists r.
Qed.

(** The guard's answer for an extension of a path it lets through. *)
Lemma safe_path_extension base cwd path top r :
  safe_path base cwd path = Return top ->
  canonical (top ++ r) ->
  safe_path base cwd (top ++ r) = Return (top ++ r).
Proof.
  intros Hs Hcan.
  destruct base as [[|c b]|]; cbn [safe_path];
    rewrite ?(abspath_of_canonical cwd _ Hcan); try reflexivity.
  rewrite safe_path_configured in Hs.
  destruct (startswith (abspath cwd path) (abspath cwd (c :: b))) eqn:E;
    [|discriminate].
  injection Hs as <-. now rewrite (startswith_app_r _ _ r E).
Qed.

(** X1: The guard returns canonical paths only: in a process whose working
    directory is absolute, a returned path is one or two slashes followed
    by names joined with single slashes, with no empty, [.] or [..]
    component left, whatever the request spelled. *)
Theorem safe_path_returns_canonical base cwd path q :
  startswith cwd [sep] = true ->
  safe_path base cwd path = Return q ->
  canonical q /\ forallb valid_name (components q) = true.
Proof.
  intros Hcwd Hs. rewrite (safe_path_Return _ _ _ _ Hs).
  pose proof (abspath_canonical cwd path Hcwd) as Hcan.
  split; [exact Hcan|now apply canonical_components].
Qed.

Lemma safe_path_returns_canonical_witness :
  canonical (lit "/data/sub") /\ forallb valid_name (components (lit "/data/sub")) = true.
Proof.
  apply (safe_path_returns_canonical (Some (lit "/data")) (lit "/srv")
           (lit "/data/./x/../..//data/sub/") (lit "/data/sub"));
    reflexivity.
Defined.

(** X2: A path that the guard returned is returned unchanged when it is
    requested again, and a relative request gets the same answer, returned
    path or refusal, as the same request joined to the working
    directory. *)
Theorem safe_path_stable base cwd path :
  startswith cwd [sep] = true ->
  (forall q, safe_path base cwd path = Return q -> safe_path base cwd q = Return q)
  /\ (startswith path [sep] = false ->
      safe_path base cwd (join cwd path) = safe_path base cwd path).
Proof.
  intros Hcwd. split.
  - intros q Hs.
    pose proof (safe_path_Return _ _ _ _ Hs) as Hq.
    pose proof (abspath_canonical cwd path Hcwd) as Hcan. rewrite <- Hq in Hcan.
    rewrite <- (app_nil_r q) at 1 2.
    rewrite <- (app_nil_r q) in Hcan.
    rewrite (safe_path_extension base cwd path q [] Hs Hcan).
    now rewrite app_nil_r.
  - intros Hrel.
    assert (Hsame : abspath cwd (join cwd path) = abspath cwd path).
    { unfold abspath.
      pose proof (from_root_absolute cwd path Hcwd) as Habs.
      unfold from_root in Habs. rewrite Hrel in Habs. now rewrite Habs, Hrel. }
    destruct base as [[|c b]|]; cbn [safe_path]; now rewrite ?Hsame.
Qed.

Lemma safe_path_stable_witness :
  safe_path (Some (lit "/srv/data")) (lit "/srv") (lit "/srv/data/x")
  = Return (lit "/srv/data/x")
  /\ safe_path (Some (lit "/srv/data")) (lit "/srv") (join (lit "/srv") (lit "data/./x"))
     = safe_path (Some (lit "/srv/data")) (lit "/srv") (lit "data/./x")
  /\ safe_path (Some (lit "/srv/data")) (lit "/srv") (join (lit "/srv") (lit "../etc"))
     = safe_path (Some (lit "/srv/data")) (lit "/srv") (lit "../etc").
Proof.
  split; [|split].
  - apply (safe_path_stable (Some (lit "/srv/data")) (lit "/srv") (lit "data/./x"));
      reflexivity.
  - apply (safe_path_stable (Some (lit "/srv/data")) (lit "/srv") (lit "data/./x"));
      reflexivity.
  - apply (safe_path_stable (Some (lit "/srv/data")) (lit "/srv") (lit "../etc"));
      reflexivity.
Defined.

Lemma canonical_not_ending_sep (n : nat) (comps : list str) :
  comps <> [] ->
  forallb valid_name comps = true ->
  endswith_char (repeat sep n ++ join_sep sep comps) sep = false.
Proof.
  intros Hne Hvalid.
  destruct (exists_last Hne) as (cs & l & ->).
  rewrite forallb_app in Hvalid. apply andb_prop in Hvalid as [_ Hl].
  cbn [forallb] in Hl. rewrite andb_true_r in Hl.
  pose proof (valid_name_last l Hl) as Hlast.
  destruct (valid_name_head l Hl) as (c & l' & Heq & _).
  assert (Hl0 : l <> []) by (rewrite Heq; discriminate).
  destruct (exists_last Hl0) as (l0 & d & ->).
  rewrite endswith_char_last in Hlast.
  assert (Hjoin : exists pre, join_sep sep (cs ++ [l0 ++ [d]]) = pre ++ [d]).
  { destruct cs as [|x cs].
    - exists l0. reflexivity.
    - rewrite join_sep_snoc by discriminate.
      exists (join_sep sep (x :: cs) ++ sep :: l0).
      now rewrite <- app_assoc. }
  destruct Hjoin as (pre & ->).
  now rewrite app_assoc, endswith_char_last.
Qed.

(** A name joined to a canonical path gives a canonical path. *)
Lemma join_canonical (top name : str) :
  canonical top -> valid_name name = true ->
  canonical (join top name) /\ exists r, join top name = top ++ r.
Proof.
  intros (n & comps & Hn & Hvalid & ->) Hname.
  rewrite (join_valid_name _ _ Hname).
  destruct comps as [|w comps].
  - split.
    + exists n, [name]. repeat split; auto.
      * cbn [forallb]. now rewrite Hname.
      * destruct Hn as [-> | ->]; reflexivity.
    + exists name. destruct Hn as [-> | ->]; reflexivity.
  - assert (Hend : endswith_char (repeat sep n ++ join_sep sep (w :: comps)) sep
                   = false)
      by (apply canonical_not_ending_sep; [discriminate|exact Hvalid]).
    assert (Hbase : base_of (repeat sep n ++ join_sep sep (w :: comps))
                    = (repeat sep n ++ join_sep sep (w :: comps)) ++ [sep]).
    { unfold base_of. rewrite Hend.
      destruct Hn as [-> | ->]; reflexivity. }
    rewrite Hbase. split.
    + exists n, ((w :: comps) ++ [name]). repeat split; auto.
      * rewrite forallb_app, Hvalid. cbn [forallb]. now rewrite Hname.
      * rewrite join_sep_snoc by discriminate. now rewrite <- !app_assoc.
    + exists (sep :: name). now rewrite <- app_assoc.
Qed.

(** X3: Going down from a path that the guard returned stays inside the
    guard: the path joined with a name is returned as it is. *)
Theorem safe_path_closed_under_join base cwd path top name :
  startswith cwd [sep] = true ->
  safe_path base cwd path = Return top ->
  valid_name name = true ->
  safe_path base cwd (join top name) = Return (join top name).
Proof.
  intros Hcwd Hs Hname.
  pose proof (safe_path_Return _ _ _ _ Hs) as Hq.
  pose proof (abspath_canonical cwd path Hcwd) as Hcan. rewrite <- Hq in Hcan.
  destruct (join_canonical top name Hcan Hname) as (Hjoin & r & Hr).
  rewrite Hr in *. now apply (safe_path_extension base cwd path).
Qed.

Lemma safe_path_closed_under_join_witness :
  safe_path (Some (lit "/data")) (lit "/srv") (join (lit "/data/sub") (lit "deep"))
  = Return (join (lit "/data/sub") (lit "deep")).
Proof.
  apply (safe_path_closed_under_join (Some (lit "/data")) (lit "/srv")
           (lit "/data/sub/") (lit "/data/sub") (lit "deep"));
    reflexivity.
Defined.

Lemma components_app_sep (a b : str) :
  components (a ++ sep :: b) = components a ++ components b.
Proof. unfold components. now rewrite split_app_sep, filter_app. Qed.

Lemma components_prefix_app (l m : list str) :
  components_prefix l (l ++ m) = true.
Proof.
  induction l as [|x l IH]; [reflexivity|].
  cbn [app components_prefix]. now rewrite str_eqb_refl, IH.
Qed.

(** X4: Where the raw prefix test is right: a path that the guard returns
    consists of the canonical root and a rest, and it lies inside the
    root, component by component, whenever the rest is empty or begins
    with a slash or the root ends with one.  So a returned path that is
    not inside the root continues the last name of the root. *)
Theorem safe_path_contained_at_boundary (c : codepoint) (b cwd path q : str) :
  safe_path (Some (c :: b)) cwd path = Return q ->
  exists r,
    q = abspath cwd (c :: b) ++ r
    /\ (r = [] \/ (exists r', r = sep :: r')
        \/ endswith_char (abspath cwd (c :: b)) sep = true ->
        contained_in (abspath cwd (c :: b)) q = true)
    /\ (contained_in (abspath cwd (c :: b)) q = false ->
        endswith_char (abspath cwd (c :: b)) sep = false
        /\ exists d r', r = d :: r' /\ d <> sep).
Proof.
  intros Hs. rewrite safe_path_configured in Hs.
  destruct (startswith (abspath cwd path) (abspath cwd (c :: b))) eqn:E;
    [|discriminate].
  injection Hs as <-. destruct (startswith_inv _ _ E) as (r & Hr).
  exists r. split; [exact Hr|].
  set (B := abspath cwd (c :: b)) in *. rewrite Hr. clearbody B. clear Hr E.
  assert (Hin : r = [] \/ (exists r', r = sep :: r') \/ endswith_char B sep = true ->
                contained_in B (B ++ r) = true).
  { unfold contained_in. intros [-> | [(r' & ->) | Hend]].
    - rewrite app_nil_r. rewrite <- (app_nil_r (components B)) at 2.
      apply components_prefix_app.
    - rewrite components_app_sep. apply components_prefix_app.
    - apply endswith_char_app in Hend as (B0 & ->).
      rewrite <- app_assoc. cbn [app].
      rewrite !components_app_sep. cbn [components]. unfold components at 2.
      cbn [split filter str_eqb negb]. rewrite app_nil_r.
      apply components_prefix_app. }
  split; [exact Hin|].
  intros Hout.
  destruct (endswith_char B sep) eqn:Hend.
  { rewrite Hin in Hout by auto. discriminate. }
  split; [reflexivity|].
  destruct r as [|d r'].
  { rewrite Hin in Hout by auto. discriminate. }
  exists d, r'. split; [reflexivity|]. intros ->.
  rewrite Hin in Hout by eauto. discriminate.
Qed.

Lemma safe_path_contained_at_boundary_witness :
  exists r,
    lit "/data/sub/deep" = abspath (lit "/srv") (lit "/data") ++ r
    /\ contained_in (abspath (lit "/srv") (lit "/data")) (lit "/data/sub/deep") = true.
Proof.
  destruct (safe_path_contained_at_boundary 47 (lit "data") (lit "/srv")
              (lit "/data/sub/deep") (lit "/data/sub/deep") eq_refl)
    as (r & Hr & Hin & _).
  exists r. split; [exact Hr|]. apply Hin. right. left.
  change (abspath (lit "/srv") (47 :: lit "data")) with (lit "/data") in Hr.
  apply app_inv_head with (l := lit "/data") in Hr. rewrite <- Hr. eauto.
Defined.

Lemma descendants_canonical (n : node) :
  forall top d,
    canonical top ->
    well_formed n = true ->
    In d (descendants top n) ->
    canonical (fst (fst d)) /\ exists r, fst (fst d) = top ++ r.
Proof.
  induction n as [data mtime|st entries IH] using node_nested_ind;
    intros top d Hcan Hwf Hin.
  - destruct Hin.
  - cbn [descendants] in Hin. apply in_flat_map in Hin as (e & He & Hin).
    destruct (well_formed_Dir _ _ Hwf) as (_ & Hentries).
    destruct (Hentries e He) as (Hname & Hwfe).
    destruct (join_canonical top (fst e) Hcan Hname) as (Hjoin & r & Hr).
    destruct Hin as [<-|Hin]; cbn [fst]; [eauto|].
    rewrite Forall_forall in IH.
    destruct (IH e He _ _ Hjoin Hwfe Hin) as (Hd & r' & Hr').
    split; [exact Hd|]. exists (r ++ r'). now rewrite Hr', Hr, <- app_assoc.
Qed.

(** X17: Every path of a listing, in either mode, can be requested in turn:
    the guard returns it unchanged and it names a file or directory. *)
Theorem listed_paths_pass_guard
    base cwd validate_modified fs request top st entries :
  startswith cwd [sep] = true ->
  (forall mtime, validate_modified mtime <> None) ->
  safe_path base cwd (FileListRequest.path request) = Return top ->
  resolve fs cwd top = Some (Dir st entries) ->
  well_formed (Dir st entries) = true ->
  exists infos,
    list_files base cwd validate_modified fs request
    = Return {| FileListResponse.files := infos |}
    /\ Forall (fun info =>
                 safe_path base cwd (FileInfo.path info)
                 = Return (FileInfo.path info)
                 /\ os_path_exists cwd fs (FileInfo.path info) = true)
              infos.
Proof.
  intros Hcwd Hval Hs Hres Hwf.
  pose proof (safe_path_Return _ _ _ _ Hs) as Hq.
  pose proof (abspath_canonical cwd (FileListRequest.path request) Hcwd) as Hcan.
  rewrite <- Hq in Hcan.
  destruct (well_formed_names _ _ Hwf) as (Hdistinct & Hvalid).
  assert (Hdesc : Forall (fun d =>
                            safe_path base cwd (fst (fst d)) = Return (fst (fst d))
                            /\ os_path_exists cwd fs (fst (fst d)) = true)
                         (descendants top (Dir st entries))).
  { apply Forall_forall. intros d Hd.
    destruct (descendants_canonical _ top d Hcan Hwf Hd) as (Hdcan & r & Hr).
    split.
    - rewrite Hr in *. now apply (safe_path_extension base cwd _ top r Hs).
    - pose proof (descendants_resolve fs cwd _ top Hwf Hres) as Hall.
      rewrite Forall_forall in Hall. unfold os_path_exists.
      now rewrite (Hall d Hd). }
  assert (Hlist : forall files,
             collect_files cwd validate_modified fs top
               (FileListRequest.recursive request) = Return files ->
             list_files base cwd validate_modified fs request
             = Return {| FileListResponse.files := files |}).
  { intros files Hfiles. unfold list_files. rewrite Hs. cbn [bind].
    unfold os_path_exists. rewrite Hres. cbn [negb]. now rewrite Hfiles. }
  destruct (FileListRequest.recursive request) as [[|]|] eqn:Hrec.
  - destruct (walk_node_infos cwd validate_modified fs Hval _ top Hwf Hres)
      as (chunks & Hchunks & Hperm).
    exists (List.concat chunks). split.
    + apply Hlist. unfold collect_files, os_walk. rewrite Hres.
      now rewrite Hchunks.
    + apply (Permutation_Forall (Permutation_sym Hperm)).
      apply Forall_map. eapply Forall_impl; [|exact Hdesc].
      intros d Hd. now rewrite info_of_path.
  - exists (map (entry_info validate_modified top) entries). split.
    + apply Hlist. apply (collect_files_flat cwd validate_modified fs Hval top st);
        auto. discriminate.
    + apply Forall_map. apply Forall_forall. intros e He.
      unfold entry_info. rewrite info_of_path.
      rewrite Forall_forall in Hdesc.
      apply (Hdesc (join top (fst e), fst e, snd e)).
      cbn [descendants]. apply in_flat_map. exists e. split; [exact He|now left].
  - exists (map (entry_info validate_modified top) entries). split.
    + apply Hlist. apply (collect_files_flat cwd validate_modified fs Hval top st);
        auto. discriminate.
    + apply Forall_map. apply Forall_forall. intros e He.
      unfold entry_info. rewrite info_of_path.
      rewrite Forall_forall in Hdesc.
      apply (Hdesc (join top (fst e), fst e, snd e)).
      cbn [descendants]. apply in_flat_map. exists e. split; [exact He|now left].
Qed.

Lemma listed_paths_pass_guard_witness :
  exists infos,
    list_files (Some (lit "/data")) (lit "/srv") coerce_number sample_fs
      {| FileListRequest.path := lit "/data/sub/../";
         FileListRequest.recursive := Some true |}
    = Return {| FileListResponse.files := infos |}
    /\ Forall (fun info =>
                 safe_path (Some (lit "/data")) (lit "/srv") (FileInfo.path info)
                 = Return (FileInfo.path info)
                 /\ os_path_exists (lit "/srv") sample_fs (FileInfo.path info) = true)
              infos.
Proof.
  apply (listed_paths_pass_guard (Some (lit "/data")) (lit "/srv") coerce_number
           sample_fs
           {| FileListRequest.path := lit "/data/sub/../";
              FileListRequest.recursive := Some true |}
           (lit "/data") (at_time 110)
           [ (lit "hello.txt", File (list_byte_of_string "hello" ++ [x0a]) 111);
             (lit "sub",
              Dir (at_time 112)
                [ (lit "deep", Dir (at_time 113) []);
                  (lit "crlf.txt", File [x61; x0d; x0a; x62] 114) ]);
             (lit "blob.bin", File [xff; x00; x10] 115) ]);
    try reflexivity.
  intros mtime. discriminate.
Defined.

(** X5: The root may be configured by any spelling of its path: the guard
    lets through the same requests, with the same paths, as for the
    canonical spelling. *)
Theorem safe_path_root_spelling (c : codepoint) (b cwd path q : str) :
  startswith cwd [sep] = true ->
  (safe_path (Some (c :: b)) cwd path = Return q
   <-> safe_path (Some (abspath cwd (c :: b))) cwd path = Return q).
Proof.
  intros Hcwd.
  pose proof (abspath_canonical cwd (c :: b) Hcwd) as Hcan.
  pose proof (abspath_of_canonical cwd _ Hcan) as Hfix.
  pose proof (canonical_absolute _ Hcan) as Habs.
  destruct (abspath cwd (c :: b)) as [|d B] eqn:EB; [discriminate|].
  rewrite !safe_path_configured, EB, Hfix.
  destruct (startswith (abspath cwd path) (d :: B)); split; congruence.
Qed.

Lemma safe_path_root_spelling_witness :
  safe_path (Some (lit "data/../data/")) (lit "/srv") (lit "data/x")
  = Return (lit "/srv/data/x")
  <-> safe_path (Some (abspath (lit "/srv") (lit "data/../data/"))) (lit "/srv")
        (lit "data/x")
      = Return (lit "/srv/data/x").
Proof.
  apply (safe_path_root_spelling 100 (lit "ata/../data/") (lit "/srv")
           (lit "data/x") (lit "/srv/data/x")).
  reflexivity.
Defined.

(** ** The listing and the tree *)

(** Every [FileInfo] of a listing of a directory, in either mode,
    describes a descendant of the directory. *)
Lemma list_files_from_descendants
    base cwd validate_modified fs request top st entries :
  (forall mtime, validate_modified mtime <> None) ->
  safe_path base cwd (FileListRequest.path request) = Return top ->
  resolve fs cwd top = Some (Dir st entries) ->
  well_formed (Dir st entries) = true ->
  exists infos,
    list_files base cwd validate_modified fs request
    = Return {| FileListResponse.files := infos |}
    /\ forall info, In info infos ->
         exists d, In d (descendants top (Dir st entries))
                   /\ info = info_of validate_modified d.
Proof.
  intros Hval Hs Hres Hwf.
  destruct (well_formed_names _ _ Hwf) as (Hdistinct & Hvalid).
  assert (Hlist : forall files,
             collect_files cwd validate_modified fs top
               (FileListRequest.recursive request) = Return files ->
             list_files base cwd validate_modified fs request
             = Return {| FileListResponse.files := files |}).
  { intros files Hfiles. unfold list_files. rewrite Hs. cbn [bind].
    unfold os_path_exists. rewrite Hres. cbn [negb]. now rewrite Hfiles. }
  assert (Hflat : FileListRequest.recursive request <> Some true ->
                  exists infos,
                    list_files base cwd validate_modified fs request
                    = Return {| FileListResponse.files := infos |}
                    /\ forall info, In info infos ->
                         exists d, In d (descendants top (Dir st entries))
                                   /\ info = info_of validate_modified d).
  { intros Hrec. exists (map (entry_info validate_modified top) entries). split.
    - apply Hlist.
      now apply (collect_files_flat cwd validate_modified fs Hval top st).
    - intros info Hin. apply in_map_iff in Hin as (e & <- & He).
      exists (join top (fst e), fst e, snd e). split; [|reflexivity].
      cbn [descendants]. apply in_flat_map. exists e. split; [exact He|now left]. }
  destruct (FileListRequest.recursive request) as [[|]|] eqn:Hrec;
    try (apply Hflat; discriminate).
  destruct (walk_node_infos cwd validate_modified fs Hval _ top Hwf Hres)
    as (chunks & Hchunks & Hperm).
  exists (List.concat chunks). split.
  - apply Hlist. unfold collect_files, os_walk. rewrite Hres. now rewrite Hchunks.
  - intros info Hin. apply (Permutation_in _ Hperm) in Hin.
    apply in_map_iff in Hin as (d & <- & Hd). eauto.
Qed.

(** X18: What a listing says of an entry is what the file system holds at the
    entry's path: a directory is listed as a directory without size, a
    regular file as a file with the number of its bytes as size. *)
Theorem listed_kind_and_size
    base cwd validate_modified fs request top st entries :
  (forall mtime, validate_modified mtime <> None) ->
  safe_path base cwd (FileListRequest.path request) = Return top ->
  resolve fs cwd top = Some (Dir st entries) ->
  well_formed (Dir st entries) = true ->
  exists infos,
    list_files base cwd validate_modified fs request
    = Return {| FileListResponse.files := infos |}
    /\ Forall (fun info =>
                 match resolve fs cwd (FileInfo.path info) with
                 | Some (File data _) =>
                     FileInfo.is_dir info = false
                     /\ FileInfo.size info = Some (Z.of_nat (List.length data))
                 | Some (Dir _ _) =>
                     FileInfo.is_dir info = true /\ FileInfo.size info = None
                 | None => False
                 end)
              infos.
Proof.
  intros Hval Hs Hres Hwf.
  destruct (list_files_from_descendants base cwd validate_modified fs request
              top st entries Hval Hs Hres Hwf) as (infos & Hlist & Hfrom).
  exists infos. split; [exact Hlist|].
  apply Forall_forall. intros info Hin.
  destruct (Hfrom info Hin) as (d & Hd & ->).
  pose proof (descendants_resolve fs cwd _ top Hwf Hres) as Hall.
  rewrite Forall_forall in Hall. specialize (Hall d Hd).
  rewrite info_of_path, Hall.
  destruct d as [[p name] [data mtime|st' entries']]; cbn; auto.
Qed.

Lemma listed_kind_and_size_witness :
  exists infos,
    list_files None (lit "/srv") coerce_number sample_fs
      {| FileListRequest.path := lit "/data2"; FileListRequest.recursive := None |}
    = Return {| FileListResponse.files := infos |}
    /\ Forall (fun info =>
                 match resolve sample_fs (lit "/srv") (FileInfo.path info) with
                 | Some (File data _) =>
                     FileInfo.is_dir info = false
                     /\ FileInfo.size info = Some (Z.of_nat (List.length data))
                 | Some (Dir _ _) =>
                     FileInfo.is_dir info = true /\ FileInfo.size info = None
                 | None => False
                 end)
              infos.
Proof.
  apply (listed_kind_and_size None (lit "/srv") coerce_number sample_fs
           {| FileListRequest.path := lit "/data2";
              FileListRequest.recursive := None |}
           (lit "/data2") (at_time 120)
           [ (lit "secret", File (list_byte_of_string "top secret") 121) ]);
    try reflexivity.
  intros mtime. discriminate.
Defined.

(** ** The order of a recursive listing *)

Lemma recursive_listing_head cwd validate_modified fs top st entries :
  (forall mtime, validate_modified mtime <> None) ->
  resolve fs cwd top = Some (Dir st entries) ->
  well_formed (Dir st entries) = true ->
  exists below,
    collect_files cwd validate_modified fs top (Some true)
    = Return
        (map (entry_info validate_modified top)
           (filter (fun e => is_dir_node (snd e)) entries)
         ++ map (entry_info validate_modified top)
              (filter (fun e => negb (is_dir_node (snd e))) entries)
         ++ below).
Proof.
  intros Hval Hres Hwf.
  destruct (well_formed_names _ _ Hwf) as (Hdistinct & Hvalid).
  destruct (walk_node_infos cwd validate_modified fs Hval _ top Hwf Hres)
    as (chunks & Hchunks & _).
  cbn [walk_node for_each] in Hchunks.
  apply bind_Return in Hchunks as (infos & Hinfos & Hchunks).
  apply bind_Return in Hchunks as (rest & Hrest & Hchunks).
  injection Hchunks as <-.
  exists (List.concat rest).
  unfold collect_files, os_walk. rewrite Hres. cbn [walk_node for_each].
  rewrite Hinfos. cbn [bind]. rewrite Hrest. cbn [bind List.concat].
  f_equal. rewrite app_assoc. f_equal.
  unfold walk_infos, walk_dirs, walk_nondirs in Hinfos.
  rewrite (for_each_map _ fst (entry_info validate_modified top)) in Hinfos.
  2:{ intros e He. apply filter_In in He as (He & Hdir).
      apply dir_info_child; auto.
      eapply entries_resolve; eauto. }
  cbn [bind] in Hinfos.
  rewrite (for_each_map _ fst (entry_info validate_modified top)) in Hinfos.
  2:{ intros e He. apply filter_In in He as (He & Hdir).
      apply negb_true_iff in Hdir. apply file_info_child; auto.
      eapply entries_resolve; eauto. }
  cbn [bind] in Hinfos. now injection Hinfos.
Qed.

Lemma NoDup_map_app_disjoint {A B} (f : A -> B) (l1 l2 : list A) (x : A) :
  NoDup (map f (l1 ++ l2)) -> In x l1 -> In x l2 -> False.
Proof.
  induction l1 as [|a l1 IH]; intros Hnd H1 H2; [destruct H1|].
  cbn [app map] in Hnd. inversion Hnd as [|? ? Hnot Hnd']; subst.
  destruct H1 as [-> | H1]; [|now apply IH].
  apply Hnot. apply in_map. apply in_or_app. now right.
Qed.

(** X19: A recursive listing begins with the entries of the listed directory
    itself, its subdirectories first and its files after them, each group
    in the order of enumeration; every entry after them lies below one of
    the subdirectories. *)
Theorem list_files_recursive_order
    base cwd validate_modified fs request top st entries :
  (forall mtime, validate_modified mtime <> None) ->
  safe_path base cwd (FileListRequest.path request) = Return top ->
  resolve fs cwd top = Some (Dir st entries) ->
  well_formed (Dir st entries) = true ->
  FileListRequest.recursive request = Some true ->
  exists below,
    list_files base cwd validate_modified fs request
    = Return {| FileListResponse.files :=
                  map (entry_info validate_modified top)
                    (filter (fun e => is_dir_node (snd e)) entries)
                  ++ map (entry_info validate_modified top)
                       (filter (fun e => negb (is_dir_node (snd e))) entries)
                  ++ below |}
    /\ Forall (fun info =>
                 exists e r,
                   In e entries /\ is_dir_node (snd e) = true
                   /\ FileInfo.path info = join top (fst e) ++ sep :: r)
              below.
Proof.
  intros Hval Hs Hres Hwf Hrec.
  destruct (recursive_listing_head cwd validate_modified fs top st entries
              Hval Hres Hwf) as (below & Hhead).
  exists below. split.
  - unfold list_files. rewrite Hs. cbn [bind].
    unfold os_path_exists. rewrite Hres, Hrec. cbn [negb]. now rewrite Hhead.
  - destruct (walk_node_infos cwd validate_modified fs Hval _ top Hwf Hres)
      as (chunks & Hchunks & Hperm).
    assert (Hsame : collect_files cwd validate_modified fs top (Some true)
                    = Return (List.concat chunks)).
    { unfold collect_files, os_walk. rewrite Hres. now rewrite Hchunks. }
    rewrite Hhead in Hsame. injection Hsame as Hsame.
    rewrite app_assoc in Hsame.
    set (head := map (entry_info validate_modified top)
                   (filter (fun e => is_dir_node (snd e)) entries)
                 ++ map (entry_info validate_modified top)
                      (filter (fun e => negb (is_dir_node (snd e))) entries)) in *.
    assert (Hnodup : NoDup (map FileInfo.path (head ++ below))).
    { rewrite Hsame.
      apply (Permutation_NoDup
               (Permutation_sym (Permutation_map FileInfo.path Hperm))).
      replace (map FileInfo.path
                 (map (info_of validate_modified)
                    (descendants top (Dir st entries))))
        with (map (fun d => fst (fst d)) (descendants top (Dir st entries))).
      - now apply descendants_NoDup.
      - rewrite map_map. apply map_ext. intros d.
        symmetry. apply info_of_path. }
    destruct (well_formed_Dir _ _ Hwf) as (_ & Hentries).
    apply Forall_forall. intros info Hin.
    assert (Hwhole : In info (List.concat chunks))
      by (rewrite <- Hsame; apply in_or_app; now right).
    apply (Permutation_in _ Hperm) in Hwhole.
    apply in_map_iff in Hwhole as (d & Hinfo & Hd).
    cbn [descendants] in Hd. apply in_flat_map in Hd as (e & He & Hd).
    destruct (Hentries e He) as (Hname & Hwfe).
    destruct Hd as [<- | Hd].
    + exfalso. apply (NoDup_map_app_disjoint _ _ _ info Hnodup); [|exact Hin].
      rewrite <- Hinfo. subst head. apply in_or_app.
      change (info_of validate_modified (join top (fst e), fst e, snd e))
        with (entry_info validate_modified top e).
      destruct (is_dir_node (snd e)) eqn:Hdir; [left|right];
        apply in_map; apply filter_In; split; auto.
      now rewrite Hdir.
    + exists e.
      destruct (descendants_below _ _ _ Hwfe Hd) as (r & Hr & _).
      rewrite base_of_join in Hr by assumption.
      exists r. split; [exact He|]. split.
      * destruct (snd e); [destruct Hd|reflexivity].
      * rewrite <- Hinfo, info_of_path, Hr, (join_valid_name _ _ Hname).
        now rewrite <- !app_assoc.
Qed.

Lemma list_files_recursive_order_witness :
  exists below,
    list_files None (lit "/srv") coerce_number sample_fs
      {| FileListRequest.path := lit "/data"; FileListRequest.recursive := Some true |}
    = Return {| FileListResponse.files :=
        [ {| FileInfo.name := lit "sub"; FileInfo.path := lit "/data/sub";
             FileInfo.is_dir := true; FileInfo.size := None;
             FileInfo.modified := Some (lit "112.0") |};
          {| FileInfo.name := lit "hello.txt"; FileInfo.path := lit "/data/hello.txt";
             FileInfo.is_dir := false; FileInfo.size := Some 6%Z;
             FileInfo.modified := Some (lit "111.0") |};
          {| FileInfo.name := lit "blob.bin"; FileInfo.path := lit "/data/blob.bin";
             FileInfo.is_dir := false; FileInfo.size := Some 3%Z;
             FileInfo.modified := Some (lit "115.0") |} ] ++ below |}.
Proof.
  destruct (list_files_recursive_order None (lit "/srv") coerce_number sample_fs
           {| FileListRequest.path := lit "/data";
              FileListRequest.recursive := Some true |}
           (lit "/data") (at_time 110)
           [ (lit "hello.txt", File (list_byte_of_string "hello" ++ [x0a]) 111);
             (lit "sub",
              Dir (at_time 112)
                [ (lit "deep", Dir (at_time 113) []);
                  (lit "crlf.txt", File [x61; x0d; x0a; x62] 114) ]);
             (lit "blob.bin", File [xff; x00; x10] 115) ])
    as (below & Hlist & _); try reflexivity.
  - intros mtime. discriminate.
  - exists below. exact Hlist.
Defined.

(** ** The size of a base64 answer *)

Lemma b64encode_length (s : bytes) :
  List.length (b64encode s) = (4 * ((List.length s + 2) / 3))%nat.
Proof.
  induction s as [|a|a b|a b c rest IH] using bytes_ind3; try reflexivity.
  cbn [b64encode List.length]. rewrite IH.
  replace (S (S (S (List.length rest))) + 2)%nat
    with (1 * 3 + (List.length rest + 2))%nat by lia.
  rewrite Nat.div_add_l by discriminate. lia.
Qed.

(** X13: The base64 answer for a file of [n] bytes has [4 * ceil(n / 3)]
    characters, each a letter, a digit, [+], [/] or the padding [=]. *)
Theorem read_file_binary_length
    base cwd codecs_lookup fs request path data mtime decode :
  safe_path base cwd (FileRequest.path request) = Return path ->
  resolve fs cwd path = Some (File data mtime) ->
  codecs_lookup (or_default (FileRequest.encoding request) (lit "utf-8"))
  = Some decode ->
  decode data = inl UnicodeDecodeError ->
  exists content,
    read_file base cwd codecs_lookup fs request
    = Return {| FileContentResponse.content := content;
                FileContentResponse.encoding := lit "base64" |}
    /\ List.length content = (4 * ((List.length data + 2) / 3))%nat
    /\ Forall (fun ch =>
                 In ch (lit "ABCDEFGHIJKLMNOPQRSTUVWXYZabcdefghijklmnopqrstuvwxyz0123456789+/="))
              content.
Proof.
  intros Hs Hr Hcodec Hdec. exists (map to_N (b64encode data)).
  split; [|split].
  - rewrite (read_file_regular _ _ _ _ _ _ _ _ Hs Hr). cbv zeta.
    now rewrite Hcodec, Hdec.
  - rewrite length_map. apply b64encode_length.
  - apply Forall_map. eapply Forall_impl; [|apply b64encode_alphabet].
    intros b Hb. clear -Hb.
    repeat (destruct Hb as [<-|Hb]; [vm_compute; tauto|]).
    destruct Hb.
Qed.

Lemma read_file_binary_length_witness :
  exists content,
    read_file None (lit "/srv") builtin_codecs sample_fs
      {| FileRequest.path := lit "/data/blob.bin"; FileRequest.encoding := None |}
    = Return {| FileContentResponse.content := content;
                FileContentResponse.encoding := lit "base64" |}
    /\ List.length content = 4%nat.
Proof.
  destruct (read_file_binary_length None (lit "/srv") builtin_codecs sample_fs
              {| FileRequest.path := lit "/data/blob.bin";
                 FileRequest.encoding := None |}
              (lit "/data/blob.bin") [xff; x00; x10] 115%Z (strict utf_8_decode))
    as (content & Hread & Hlen & _); try reflexivity.
  exists content. split; [exact Hread|exact Hlen].
Defined.

(** ** Listings, whatever the validation does *)

Lemma for_each_app_eq {A B} (f : A -> result B) (xs ys : list A) :
  for_each f (xs ++ ys)
  = (a <- for_each f xs ;; b <- for_each f ys ;; Return (a ++ b)).
Proof.
  induction xs as [|x xs IH]; cbn [app for_each bind].
  - now destruct (for_each f ys).
  - destruct (f x) as [y|e]; cbn [bind]; [|reflexivity].
    rewrite IH. destruct (for_each f xs) as [a|e]; cbn [bind]; [|reflexivity].
    now destruct (for_each f ys).
Qed.

(** A loop whose body either gives [g x] or raises [e], the latter only
    where [P x] holds. *)
Lemma for_each_map_cases {A B C} (f : B -> result C) (h : A -> B) (g : A -> C)
    (e : exn) (P : A -> Prop) (xs : list A) :
  (forall x, In x xs -> f (h x) = Return (g x) \/ (f (h x) = Raise e /\ P x)) ->
  for_each f (map h xs) = Return (map g xs)
  \/ (for_each f (map h xs) = Raise e /\ exists x, In x xs /\ P x).
Proof.
  induction xs as [|x xs IH]; intros H; cbn [map for_each]; [now left|].
  assert (IH' := IH (fun y Hy => H y (or_intror Hy))).
  destruct (H x (or_introl eq_refl)) as [-> | [-> Hx]]; cbn [bind].
  - destruct IH' as [-> | [-> (y & Hy & HPy)]]; cbn [bind]; [now left|].
    right. split; [reflexivity|]. exists y. split; [now right|exact HPy].
  - right. split; [reflexivity|]. exists x. split; [now left|exact Hx].
Qed.

Section AnyValidation.

Variable cwd : str.
Variable validate_modified : Z -> option str.
Variable fs : node.

Lemma FileInfo_new_cases name path is_dir size mtime :
  FileInfo_new validate_modified name path is_dir size mtime
  = Return {| FileInfo.name := name; FileInfo.path := path;
              FileInfo.is_dir := is_dir; FileInfo.size := size;
              FileInfo.modified := validate_modified mtime |}
  \/ (FileInfo_new validate_modified name path is_dir size mtime
      = Raise (Error ValidationError)
      /\ validate_modified mtime = None).
Proof. unfold FileInfo_new. destruct (validate_modified mtime); auto. Qed.

Lemma FileInfo_new_modified name path is_dir size mtime info :
  FileInfo_new validate_modified name path is_dir size mtime = Return info ->
  FileInfo.modified info <> None.
Proof.
  unfold FileInfo_new. destruct (validate_modified mtime); [|discriminate].
  intros [= <-]. discriminate.
Qed.

Lemma dir_info_cases (top : str) (e : str * node) :
  resolve fs cwd (join top (fst e)) = Some (snd e) ->
  is_dir_node (snd e) = true ->
  dir_info cwd validate_modified fs top (fst e)
  = Return (entry_info validate_modified top e)
  \/ (dir_info cwd validate_modified fs top (fst e) = Raise (Error ValidationError)
      /\ validate_modified (st_mtime (stat_node (snd e))) = None).
Proof.
  intros Hres Hdir. unfold dir_info, os_stat. rewrite Hres. cbn [bind].
  unfold entry_info, info_of. rewrite Hdir. apply FileInfo_new_cases.
Qed.

Lemma file_info_cases (top : str) (e : str * node) :
  resolve fs cwd (join top (fst e)) = Some (snd e) ->
  is_dir_node (snd e) = false ->
  file_info cwd validate_modified fs top (fst e)
  = Return (entry_info validate_modified top e)
  \/ (file_info cwd validate_modified fs top (fst e) = Raise (Error ValidationError)
      /\ validate_modified (st_mtime (stat_node (snd e))) = None).
Proof.
  intros Hres Hdir. unfold file_info, os_stat. rewrite Hres. cbn [bind].
  unfold entry_info, info_of. rewrite Hdir. apply FileInfo_new_cases.
Qed.

Lemma item_info_cases (top : str) (e : str * node) :
  resolve fs cwd (join top (fst e)) = Some (snd e) ->
  item_info cwd validate_modified fs top (fst e)
  = Return (entry_info validate_modified top e)
  \/ (item_info cwd validate_modified fs top (fst e) = Raise (Error ValidationError)
      /\ validate_modified (st_mtime (stat_node (snd e))) = None).
Proof.
  intros Hres. unfold item_info, os_stat, os_path_isdir. rewrite Hres.
  cbn [bind]. apply FileInfo_new_cases.
Qed.

(** The triple of a directory gives the [FileInfo] of each of its
    entries, unless the validation rejects the time stamp of one. *)
Lemma walk_infos_entries_cases (top : str) (entries : list (str * node)) :
  (forall e, In e entries -> resolve fs cwd (join top (fst e)) = Some (snd e)) ->
  (exists infos,
     walk_infos cwd validate_modified fs (top, walk_dirs entries, walk_nondirs entries)
     = Return infos
     /\ Permutation infos (map (entry_info validate_modified top) entries))
  \/ (walk_infos cwd validate_modified fs (top, walk_dirs entries, walk_nondirs entries)
      = Raise (Error ValidationError)
      /\ exists e, In e entries
                   /\ validate_modified (st_mtime (stat_node (snd e))) = None).
Proof.
  intros Hres. unfold walk_infos, walk_dirs, walk_nondirs.
  assert (Hdirs : forall e, In e (filter (fun e => is_dir_node (snd e)) entries) ->
            dir_info cwd validate_modified fs top (fst e)
            = Return (entry_info validate_modified top e)
            \/ (dir_info cwd validate_modified fs top (fst e)
                = Raise (Error ValidationError)
                /\ validate_modified (st_mtime (stat_node (snd e))) = None)).
  { intros e He. apply filter_In in He as (He & Hdir).
    apply dir_info_cases; auto. }
  assert (Hfiles : forall e,
            In e (filter (fun e => negb (is_dir_node (snd e))) entries) ->
            file_info cwd validate_modified fs top (fst e)
            = Return (entry_info validate_modified top e)
            \/ (file_info cwd validate_modified fs top (fst e)
                = Raise (Error ValidationError)
                /\ validate_modified (st_mtime (stat_node (snd e))) = None)).
  { intros e He. apply filter_In in He as (He & Hdir).
    apply negb_true_iff in Hdir. apply file_info_cases; auto. }
  apply (for_each_map_cases (dir_info cwd validate_modified fs top) fst
           (entry_info validate_modified top) (Error ValidationError)
           (fun e => validate_modified (st_mtime (stat_node (snd e))) = None))
    in Hdirs.
  apply (for_each_map_cases (file_info cwd validate_modified fs top) fst
           (entry_info validate_modified top) (Error ValidationError)
           (fun e => validate_modified (st_mtime (stat_node (snd e))) = None))
    in Hfiles.
  destruct Hdirs as [-> | (-> & e & He & Hrej)]; cbn [bind].
  2:{ right. split; [reflexivity|]. exists e. split; [|exact Hrej].
      now apply filter_In in He. }
  destruct Hfiles as [-> | (-> & e & He & Hrej)]; cbn [bind].
  2:{ right. split; [reflexivity|]. exists e. split; [|exact Hrej].
      now apply filter_In in He. }
  left. eexists. split; [reflexivity|].
  rewrite <- map_app. apply Permutation_map, Permutation_filter_split.
Qed.

(** The walk from a directory lists its descendants, each once, unless
    the validation rejects the time stamp of one of them. *)
Lemma walk_node_infos_cases (n : node) :
  forall top,
    well_formed n = true ->
    resolve fs cwd top = Some n ->
    (exists chunks,
       for_each (walk_infos cwd validate_modified fs) (walk_node top n)
       = Return chunks
       /\ Permutation (List.concat chunks)
            (map (info_of validate_modified) (descendants top n)))
    \/ (for_each (walk_infos cwd validate_modified fs) (walk_node top n)
        = Raise (Error ValidationError)
        /\ exists d, In d (descendants top n)
                     /\ validate_modified (st_mtime (stat_node (snd d))) = None).
Proof.
  induction n as [data mtime|st entries IH] using node_nested_ind;
    intros top Hwf Hres.
  - left. exists []. split; [reflexivity|constructor].
  - destruct (well_formed_Dir _ _ Hwf) as (Hdistinct & Hentries).
    assert (Hchild : forall e, In e entries ->
                       resolve fs cwd (join top (fst e)) = Some (snd e)).
    { intros e He. destruct (Hentries e He) as (Hname & _).
      eapply resolve_child; eauto. now apply lookup_entry_distinct. }
    cbn [walk_node for_each].
    destruct (walk_infos_entries_cases top entries Hchild)
      as [(infos & -> & Hperm) | (-> & e & He & Hrej)]; cbn [bind].
    2:{ right. split; [reflexivity|].
        exists (join top (fst e), fst e, snd e). split; [|exact Hrej].
        cbn [descendants]. apply in_flat_map. exists e. split; [exact He|now left]. }
    assert (Hsub :
              (exists chunks,
                 for_each (walk_infos cwd validate_modified fs)
                   (flat_map (fun e => if is_dir_node (snd e)
                                       then walk_node (join top (fst e)) (snd e)
                                       else []) entries)
                 = Return chunks
                 /\ Permutation (List.concat chunks)
                      (map (info_of validate_modified)
                         (flat_map (fun e => descendants (join top (fst e)) (snd e))
                            entries)))
              \/ (for_each (walk_infos cwd validate_modified fs)
                    (flat_map (fun e => if is_dir_node (snd e)
                                        then walk_node (join top (fst e)) (snd e)
                                        else []) entries)
                  = Raise (Error ValidationError)
                  /\ exists d,
                       In d (flat_map (fun e => descendants (join top (fst e)) (snd e))
                               entries)
                       /\ validate_modified (st_mtime (stat_node (snd d))) = None)).
    { clear Hwf Hres Hdistinct Hperm infos. rewrite Forall_forall in IH.
      induction entries as [|e entries IHentries].
      - left. exists []. split; [reflexivity|constructor].
      - cbn [flat_map]. rewrite for_each_app_eq.
        destruct (Hentries e (or_introl eq_refl)) as (_ & Hwfe).
        pose proof (IH e (or_introl eq_refl) (join top (fst e)) Hwfe
                      (Hchild e (or_introl eq_refl))) as He.
        assert (Htail := IHentries
                  (fun e' He' => IH e' (or_intror He'))
                  (fun e' He' => Hentries e' (or_intror He'))
                  (fun e' He' => Hchild e' (or_intror He'))).
        assert (Hhead :
                  (exists chunks_e,
                     for_each (walk_infos cwd validate_modified fs)
                       (if is_dir_node (snd e)
                        then walk_node (join top (fst e)) (snd e) else [])
                     = Return chunks_e
                     /\ Permutation (List.concat chunks_e)
                          (map (info_of validate_modified)
                             (descendants (join top (fst e)) (snd e))))
                  \/ (for_each (walk_infos cwd validate_modified fs)
                        (if is_dir_node (snd e)
                         then walk_node (join top (fst e)) (snd e) else [])
                      = Raise (Error ValidationError)
                      /\ exists d,
                           In d (descendants (join top (fst e)) (snd e))
                           /\ validate_modified (st_mtime (stat_node (snd d)))
                              = None)).
        { destruct (snd e) as [data mtime|st' entries']; cbn [is_dir_node];
            [|exact He].
          left. exists []. split; [reflexivity|constructor]. }
        destruct Hhead as [(chunks_e & -> & Hperm_e) | (-> & d & Hd & Hrej)];
          cbn [bind].
        2:{ right. split; [reflexivity|]. exists d. split; [|exact Hrej].
            apply in_or_app. now left. }
        destruct Htail as [(chunks & -> & Hperm) | (-> & d & Hd & Hrej)];
          cbn [bind].
        2:{ right. split; [reflexivity|]. exists d. split; [|exact Hrej].
            apply in_or_app. now right. }
        left. eexists. split; [reflexivity|].
        rewrite concat_app, map_app. now apply Permutation_app. }
    destruct Hsub as [(chunks & -> & Hperm') | (-> & d & Hd & Hrej)]; cbn [bind].
    2:{ right. split; [reflexivity|]. exists d. split; [|exact Hrej].
        cbn [descendants]. apply in_flat_map in Hd as (e & He & Hd).
        apply in_flat_map. exists e. split; [exact He|now right]. }
    left. eexists. split; [reflexivity|].
    cbn [List.concat descendants].
    rewrite <- (Permutation_flat_map_cons
                  (fun e => (join top (fst e), fst e, snd e))
                  (fun e => descendants (join top (fst e)) (snd e))).
    rewrite map_app, map_map. now apply Permutation_app.
Qed.

(** The recursive branch on a directory. *)
Lemma collect_files_recursive_cases top st entries :
  resolve fs cwd top = Some (Dir st entries) ->
  well_formed (Dir st entries) = true ->
  (exists infos,
     collect_files cwd validate_modified fs top (Some true) = Return infos
     /\ Permutation infos
          (map (info_of validate_modified) (descendants top (Dir st entries))))
  \/ (collect_files cwd validate_modified fs top (Some true)
      = Raise (Error ValidationError)
      /\ exists d, In d (descendants top (Dir st entries))
                   /\ validate_modified (st_mtime (stat_node (snd d))) = None).
Proof.
  intros Hres Hwf. unfold collect_files, os_walk. rewrite Hres.
  destruct (walk_node_infos_cases _ top Hwf Hres)
    as [(chunks & -> & Hperm) | (-> & Hrej)]; cbn [bind].
  - left. eexists. split; [reflexivity|exact Hperm].
  - right. split; [reflexivity|exact Hrej].
Qed.

(** The non-recursive branch on a directory. *)
Lemma collect_files_flat_cases top st entries recursive :
  resolve fs cwd top = Some (Dir st entries) ->
  distinct (map fst entries) = true ->
  forallb valid_name (map fst entries) = true ->
  recursive <> Some true ->
  collect_files cwd validate_modified fs top recursive
  = Return (map (entry_info validate_modified top) entries)
  \/ (collect_files cwd validate_modified fs top recursive
      = Raise (Error ValidationError)
      /\ exists e, In e entries
                   /\ validate_modified (st_mtime (stat_node (snd e))) = None).
Proof.
  intros Hres Hdistinct Hvalid Hrec.
  assert (Hflat :
            (items <- os_listdir cwd fs top ;;
             for_each (item_info cwd validate_modified fs top) items)
            = Return (map (entry_info validate_modified top) entries)
            \/ ((items <- os_listdir cwd fs top ;;
                 for_each (item_info cwd validate_modified fs top) items)
                = Raise (Error ValidationError)
                /\ exists e, In e entries
                             /\ validate_modified (st_mtime (stat_node (snd e)))
                                = None)).
  { unfold os_listdir. rewrite Hres. cbn [bind].
    apply (for_each_map_cases (item_info cwd validate_modified fs top) fst
             (entry_info validate_modified top) (Error ValidationError)
             (fun e => validate_modified (st_mtime (stat_node (snd e))) = None)).
    intros e He. apply item_info_cases. eapply entries_resolve; eauto. }
  unfold collect_files. destruct recursive as [[|]|]; auto. now elim Hrec.
Qed.

(** The recursive branch on a directory without subdirectories. *)
Lemma collect_files_no_subdirectory_cases top st entries :
  resolve fs cwd top = Some (Dir st entries) ->
  distinct (map fst entries) = true ->
  forallb valid_name (map fst entries) = true ->
  forallb (fun e => negb (is_dir_node (snd e))) entries = true ->
  collect_files cwd validate_modified fs top (Some true)
  = Return (map (entry_info validate_modified top) entries)
  \/ collect_files cwd validate_modified fs top (Some true)
     = Raise (Error ValidationError).
Proof.
  intros Hres Hdistinct Hvalid Hfiles.
  unfold collect_files, os_walk. rewrite Hres. cbn [walk_node].
  assert (Hnone : filter (fun e => is_dir_node (snd e)) entries = []).
  { clear -Hfiles. induction entries as [|e es IH]; [reflexivity|].
    cbn [forallb] in Hfiles. apply andb_prop in Hfiles as [He Hes].
    cbn [filter]. apply negb_true_iff in He. rewrite He. auto. }
  assert (Hall : filter (fun e => negb (is_dir_node (snd e))) entries = entries).
  { clear -Hfiles. induction entries as [|e es IH]; [reflexivity|].
    cbn [forallb] in Hfiles. apply andb_prop in Hfiles as [He Hes].
    cbn [filter]. rewrite He. f_equal. auto. }
  assert (Hsub : flat_map (fun e => if is_dir_node (snd e)
                                    then walk_node (join top (fst e)) (snd e)
                                    else []) entries = []).
  { clear -Hfiles. induction entries as [|e es IH]; [reflexivity|].
    cbn [forallb] in Hfiles. apply andb_prop in Hfiles as [He Hes].
    cbn [flat_map]. apply negb_true_iff in He. rewrite He. cbn [app]. auto. }
  rewrite Hsub. cbn [for_each]. unfold walk_infos, walk_dirs, walk_nondirs.
  rewrite Hnone, Hall. cbn [map for_each bind].
  assert (Hnames : forall e, In e entries ->
            file_info cwd validate_modified fs top (fst e)
            = Return (entry_info validate_modified top e)
            \/ (file_info cwd validate_modified fs top (fst e)
                = Raise (Error ValidationError)
                /\ validate_modified (st_mtime (stat_node (snd e))) = None)).
  { intros e He. apply file_info_cases.
    - eapply entries_resolve; eauto.
    - rewrite forallb_forall in Hfiles. apply negb_true_iff. now apply Hfiles. }
  apply (for_each_map_cases (file_info cwd validate_modified fs top) fst
           (entry_info validate_modified top) (Error ValidationError)
           (fun e => validate_modified (st_mtime (stat_node (snd e))) = None))
    in Hnames.
  destruct Hnames as [-> | (-> & _)]; cbn [bind List.concat app]; [|now right].
  left. now rewrite app_nil_r.
Qed.

(** Every [FileInfo] that either branch builds has a [modified]. *)
Lemma collect_files_modified path recursive infos :
  collect_files cwd validate_modified fs path recursive = Return infos ->
  Forall (fun info => FileInfo.modified info <> None) infos.
Proof.
  intros Hfiles.
  assert (Hstat : forall q (k : stat_result -> result FileInfo.t) info,
             (forall stat i, k stat = Return i -> FileInfo.modified i <> None) ->
             bind (os_stat cwd fs q) k = Return info ->
             FileInfo.modified info <> None).
  { intros q k info Hk H. apply bind_Return in H as (stat & _ & H). eauto. }
  unfold collect_files in Hfiles.
  assert (Hflat : (items <- os_listdir cwd fs path ;;
                   for_each (item_info cwd validate_modified fs path) items)
                  = Return infos ->
                  Forall (fun info => FileInfo.modified info <> None) infos).
  { intros H. apply bind_Return in H as (items & _ & H).
    eapply for_each_Forall; [|exact H].
    intros x y. unfold item_info. apply Hstat.
    intros stat i. apply FileInfo_new_modified. }
  destruct recursive as [[|]|]; auto.
  apply bind_Return in Hfiles as (chunks & Hchunks & Hfiles).
  injection Hfiles as <-. apply Forall_concat.
  eapply for_each_Forall; [|exact Hchunks].
  intros [[root dirs] names] ys Hys. unfold walk_infos in Hys.
  apply bind_Return in Hys as (ds & Hds & Hys).
  apply bind_Return in Hys as (fs' & Hfs & Hys). injection Hys as <-.
  apply Forall_app. split.
  - eapply for_each_Forall; [|exact Hds].
    intros x y. unfold dir_info. apply Hstat.
    intros stat i. apply FileInfo_new_modified.
  - eapply for_each_Forall; [|exact Hfs].
    intros x y. unfold file_info. apply Hstat.
    intros stat i. apply FileInfo_new_modified.
Qed.

(** [list_files] on a path that the guard returns and that exists. *)
Lemma list_files_of_collect base request top n :
  safe_path base cwd (FileListRequest.path request) = Return top ->
  resolve fs cwd top = Some n ->
  list_files base cwd validate_modified fs request
  = except_Exception
      (files <- collect_files cwd validate_modified fs top
                  (FileListRequest.recursive request) ;;
       Return {| FileListResponse.files := files |}).
Proof.
  intros Hs Hres. unfold list_files. rewrite Hs. cbn [bind].
  unfold os_path_exists. now rewrite Hres.
Qed.

End AnyValidation.

(** ** The recursive listing and the validation of [modified] *)

(** C3: a recursive listing of a directory is complete as long as the
    [FileInfo] validation accepts the float [st_mtime] for the field
    [modified], declared [Optional[str]]: it then returns one [FileInfo]
    for each file and each directory below the listed path and nothing
    else, as many as there are files and directories, a rearrangement of
    the descendants' own descriptions, under pairwise distinct paths,
    with [is_dir] telling whether the path names a directory, and none
    for the listed path.  Where the validation rejects the time stamp of
    a descendant, there is no listing: the answer is 500. *)
Theorem list_files_recursive_complete
    base cwd validate_modified fs request top st entries :
  safe_path base cwd (FileListRequest.path request) = Return top ->
  resolve fs cwd top = Some (Dir st entries) ->
  well_formed (Dir st entries) = true ->
  FileListRequest.recursive request = Some true ->
  ((forall d, In d (descendants top (Dir st entries)) ->
              validate_modified (st_mtime (stat_node (snd d))) <> None) ->
   exists infos,
     list_files base cwd validate_modified fs request
     = Return {| FileListResponse.files := infos |}
     /\ List.length infos
        = (count_files (Dir st entries) + count_dirs (Dir st entries))%nat
     /\ Permutation infos
          (map (info_of validate_modified) (descendants top (Dir st entries)))
     /\ NoDup (map FileInfo.path infos)
     /\ Forall (fun info =>
                  os_path_isdir cwd fs (FileInfo.path info) = FileInfo.is_dir info)
               infos
     /\ Forall (fun info => FileInfo.path info <> top) infos)
  /\ ((exists d, In d (descendants top (Dir st entries))
                 /\ validate_modified (st_mtime (stat_node (snd d))) = None) ->
      list_files base cwd validate_modified fs request
      = Raise (HTTPException 500 (StrOf ValidationError))).
Proof.
  intros Hsafe Hres Hwf Hrec.
  rewrite (list_files_of_collect cwd validate_modified fs base request top _
             Hsafe Hres), Hrec.
  destruct (collect_files_recursive_cases cwd validate_modified fs top st entries
              Hres Hwf) as [(infos & Hc & Hperm) | (Hc & d & Hd & Hrej)].
  - pose proof (collect_files_modified _ _ _ _ _ _ Hc) as Hpresent.
    rewrite Hc. cbn [bind except_Exception]. split.
    + intros _. exists infos.
      assert (Hpaths : map FileInfo.path
                         (map (info_of validate_modified)
                            (descendants top (Dir st entries)))
                       = map (fun d => fst (fst d))
                           (descendants top (Dir st entries))).
      { rewrite map_map. apply map_ext. intros d. apply info_of_path. }
      split; [reflexivity|]. split; [|split; [exact Hperm|split; [|split]]].
      * rewrite (Permutation_length Hperm), length_map. apply descendants_length.
      * apply (Permutation_NoDup
                 (Permutation_sym (Permutation_map FileInfo.path Hperm))).
        rewrite Hpaths. now apply descendants_NoDup.
      * apply (Permutation_Forall (Permutation_sym Hperm)).
        apply Forall_map.
        eapply Forall_impl; [|exact (descendants_resolve fs cwd _ top Hwf Hres)].
        intros d Hd. rewrite info_of_path, info_of_is_dir.
        unfold os_path_isdir. now rewrite Hd.
      * apply (Permutation_Forall (Permutation_sym Hperm)).
        apply Forall_map. apply Forall_forall. intros d Hd.
        rewrite info_of_path. now apply (descendants_not_top _ _ _ Hwf Hd).
    + intros (d & Hd & Hrej). exfalso.
      rewrite Forall_forall in Hpresent.
      apply (Hpresent (info_of validate_modified d)).
      * apply (Permutation_in _ (Permutation_sym Hperm)). now apply in_map.
      * destruct d as [[path name] n]. exact Hrej.
  - rewrite Hc. cbn [bind except_Exception]. split.
    + intros Hacc. now elim (Hacc d Hd).
    + reflexivity.
Qed.

Lemma list_files_recursive_complete_witness :
  (count_files (Dir (at_time 110)
                  [ (lit "hello.txt", File (list_byte_of_string "hello" ++ [x0a]) 111);
                    (lit "sub",
                     Dir (at_time 112)
                       [ (lit "deep", Dir (at_time 113) []);
                         (lit "crlf.txt", File [x61; x0d; x0a; x62] 114) ]);
                    (lit "blob.bin", File [xff; x00; x10] 115) ])
   + count_dirs (Dir (at_time 110)
                   [ (lit "hello.txt", File (list_byte_of_string "hello" ++ [x0a]) 111);
                     (lit "sub",
                      Dir (at_time 112)
                        [ (lit "deep", Dir (at_time 113) []);
                          (lit "crlf.txt", File [x61; x0d; x0a; x62] 114) ]);
                     (lit "blob.bin", File [xff; x00; x10] 115) ])
   = 5)%nat
  /\ list_files (Some (lit "/data")) (lit "/srv") reject_number sample_fs
       {| FileListRequest.path := lit "/data";
          FileListRequest.recursive := Some true |}
     = Raise (HTTPException 500 (StrOf ValidationError))
  /\ exists infos,
       list_files (Some (lit "/data")) (lit "/srv") coerce_number sample_fs
         {| FileListRequest.path := lit "/data";
            FileListRequest.recursive := Some true |}
       = Return {| FileListResponse.files := infos |}
       /\ List.length infos = 5%nat
       /\ Permutation (map FileInfo.path infos)
            [lit "/data/hello.txt"; lit "/data/sub"; lit "/data/sub/deep";
             lit "/data/sub/crlf.txt"; lit "/data/blob.bin"].
Proof.
  split; [reflexivity|]. split.
  - apply (list_files_recursive_complete (Some (lit "/data")) (lit "/srv")
             reject_number sample_fs
             {| FileListRequest.path := lit "/data";
                FileListRequest.recursive := Some true |}
             (lit "/data") (at_time 110)
             [ (lit "hello.txt", File (list_byte_of_string "hello" ++ [x0a]) 111);
               (lit "sub",
                Dir (at_time 112)
                  [ (lit "deep", Dir (at_time 113) []);
                    (lit "crlf.txt", File [x61; x0d; x0a; x62] 114) ]);
               (lit "blob.bin", File [xff; x00; x10] 115) ]);
      try reflexivity.
    exists (lit "/data/hello.txt", lit "hello.txt",
            File (list_byte_of_string "hello" ++ [x0a]) 111).
    split; [now left|reflexivity].
  - destruct (list_files_recursive_complete (Some (lit "/data")) (lit "/srv")
                coerce_number sample_fs
                {| FileListRequest.path := lit "/data";
                   FileListRequest.recursive := Some true |}
                (lit "/data") (at_time 110)
                [ (lit "hello.txt", File (list_byte_of_string "hello" ++ [x0a]) 111);
                  (lit "sub",
                   Dir (at_time 112)
                     [ (lit "deep", Dir (at_time 113) []);
                       (lit "crlf.txt", File [x61; x0d; x0a; x62] 114) ]);
                  (lit "blob.bin", File [xff; x00; x10] 115) ])
      as (Hcomplete & _); try reflexivity.
    destruct Hcomplete as (infos & Hlist & Hlen & Hperm & _).
    + intros d _. discriminate.
    + exists infos. split; [exact Hlist|]. split; [exact Hlen|].
      exact (Permutation_map FileInfo.path Hperm).
Defined.

(** X16: The two modes on one directory, whatever the validation does:
    whenever the recursive listing succeeds, so does the non-recursive
    one, every entry of the non-recursive listing is an entry of the
    recursive one, and when the directory has no subdirectory the two
    listings are the same list.  The recursive listing succeeds when the
    validation accepts every time stamp. *)
Theorem list_files_flat_within_recursive
    base cwd validate_modified fs path top st entries recursive :
  safe_path base cwd path = Return top ->
  resolve fs cwd top = Some (Dir st entries) ->
  well_formed (Dir st entries) = true ->
  recursive <> Some true ->
  (forall deep,
     list_files base cwd validate_modified fs
       {| FileListRequest.path := path; FileListRequest.recursive := Some true |}
     = Return {| FileListResponse.files := deep |} ->
     exists flat,
       list_files base cwd validate_modified fs
         {| FileListRequest.path := path; FileListRequest.recursive := recursive |}
       = Return {| FileListResponse.files := flat |}
       /\ incl flat deep
       /\ (forallb (fun e => negb (is_dir_node (snd e))) entries = true ->
           deep = flat))
  /\ ((forall mtime, validate_modified mtime <> None) ->
      exists deep,
        list_files base cwd validate_modified fs
          {| FileListRequest.path := path;
             FileListRequest.recursive := Some true |}
        = Return {| FileListResponse.files := deep |}).
Proof.
  intros Hs Hres Hwf Hrec.
  destruct (well_formed_names _ _ Hwf) as (Hdistinct & Hvalid).
  rewrite !(list_files_of_collect cwd validate_modified fs base _ top _)
    by (cbn [FileListRequest.path]; eassumption).
  cbn [FileListRequest.recursive].
  destruct (collect_files_recursive_cases cwd validate_modified fs top st entries
              Hres Hwf) as [(infos & Hc & Hperm) | (Hc & d & Hd & Hrej)].
  - pose proof (collect_files_modified _ _ _ _ _ _ Hc) as Hpresent.
    rewrite Forall_forall in Hpresent.
    assert (Hincl : incl (map (entry_info validate_modified top) entries) infos).
    { intros info Hin. apply in_map_iff in Hin as (e & <- & He).
      apply (Permutation_in _ (Permutation_sym Hperm)).
      unfold entry_info. apply in_map. cbn [descendants].
      apply in_flat_map. exists e. split; [exact He|now left]. }
    split.
    + intros deep Hdeep. rewrite Hc in Hdeep. cbn [bind except_Exception] in Hdeep.
      injection Hdeep as <-.
      exists (map (entry_info validate_modified top) entries).
      split; [|split; [exact Hincl|]].
      * destruct (collect_files_flat_cases cwd validate_modified fs top st entries
                    recursive Hres Hdistinct Hvalid Hrec)
          as [-> | (_ & e & He & Hrej)]; [reflexivity|].
        exfalso. apply (Hpresent (entry_info validate_modified top e)).
        -- apply Hincl. now apply in_map.
        -- exact Hrej.
      * intros Hfiles.
        destruct (collect_files_no_subdirectory_cases cwd validate_modified fs
                    top st entries Hres Hdistinct Hvalid Hfiles) as [H | H];
          rewrite H in Hc; [now injection Hc|discriminate].
    + intros _. exists infos. now rewrite Hc.
  - split.
    + intros deep Hdeep. rewrite Hc in Hdeep. discriminate.
    + intros Hval. now elim (Hval _ Hrej).
Qed.

Lemma list_files_flat_within_recursive_witness :
  exists flat deep,
    list_files None (lit "/srv") coerce_number sample_fs
      {| FileListRequest.path := lit "/data"; FileListRequest.recursive := None |}
    = Return {| FileListResponse.files := flat |}
    /\ list_files None (lit "/srv") coerce_number sample_fs
         {| FileListRequest.path := lit "/data";
            FileListRequest.recursive := Some true |}
       = Return {| FileListResponse.files := deep |}
    /\ incl flat deep.
Proof.
  destruct (list_files_flat_within_recursive None (lit "/srv") coerce_number
              sample_fs (lit "/data") (lit "/data") (at_time 110)
              [ (lit "hello.txt", File (list_byte_of_string "hello" ++ [x0a]) 111);
                (lit "sub",
                 Dir (at_time 112)
                   [ (lit "deep", Dir (at_time 113) []);
                     (lit "crlf.txt", File [x61; x0d; x0a; x62] 114) ]);
                (lit "blob.bin", File [xff; x00; x10] 115) ]
              None)
    as (Hwithin & Hdeep); try reflexivity; try discriminate.
  destruct Hdeep as (deep & Hdeep); [intros mtime; discriminate|].
  destruct (Hwithin deep Hdeep) as (flat & Hflat & Hincl & _).
  exists flat, deep. auto.
Defined.

(** ** No root configured *)

(** C6: with no root configured and an absolute working directory, the
    guard returns for every path its absolute normal form, which is
    canonical, and returns every canonical path as it is, so no location
    is kept out; a regular file at the returned path is read, with the
    answer of a read behind a root, and a directory at the returned path
    is listed, entry by entry, unless the validation of [modified]
    rejects a time stamp; and neither handler ever answers 403. *)
Theorem safe_path_no_root_passthrough
    (cwd : str) (codecs_lookup : str -> option codec)
    (validate_modified : Z -> option str) (fs : node) :
  startswith cwd [sep] = true ->
  (forall path,
     safe_path None cwd path = Return (abspath cwd path)
     /\ canonical (abspath cwd path))
  /\ (forall q, canonical q -> safe_path None cwd q = Return q)
  /\ (forall request data mtime,
        resolve fs cwd (abspath cwd (FileRequest.path request))
        = Some (File data mtime) ->
        read_file None cwd codecs_lookup fs request
        = let encoding := or_default (FileRequest.encoding request) (lit "utf-8") in
          match codecs_lookup encoding with
          | None => Raise (HTTPException 500 (StrOf LookupError))
          | Some decode =>
              match decode data with
              | inr text =>
                  Return {| FileContentResponse.content := universal_newlines text;
                            FileContentResponse.encoding := encoding |}
              | inl UnicodeDecodeError =>
                  Return {| FileContentResponse.content := map to_N (b64encode data);
                            FileContentResponse.encoding := lit "base64" |}
              | inl e => Raise (HTTPException 500 (StrOf e))
              end
          end)
  /\ (forall request st entries,
        resolve fs cwd (abspath cwd (FileListRequest.path request))
        = Some (Dir st entries) ->
        well_formed (Dir st entries) = true ->
        (exists infos,
           list_files None cwd validate_modified fs request
           = Return {| FileListResponse.files := infos |}
           /\ incl (map (entry_info validate_modified
                           (abspath cwd (FileListRequest.path request))) entries)
                   infos
           /\ (FileListRequest.recursive request <> Some true ->
               infos = map (entry_info validate_modified
                              (abspath cwd (FileListRequest.path request))) entries)
           /\ (FileListRequest.recursive request = Some true ->
               Permutation infos
                 (map (info_of validate_modified)
                    (descendants (abspath cwd (FileListRequest.path request))
                       (Dir st entries)))))
        \/ (list_files None cwd validate_modified fs request
            = Raise (HTTPException 500 (StrOf ValidationError))
            /\ exists d,
                 In d (descendants (abspath cwd (FileListRequest.path request))
                         (Dir st entries))
                 /\ validate_modified (st_mtime (stat_node (snd d))) = None))
  /\ (forall request,
        status_code_of (list_files None cwd validate_modified fs request)
        <> Some 403%Z)
  /\ (forall request,
        status_code_of (read_file None cwd codecs_lookup fs request)
        <> Some 403%Z).
Proof.
  intros Hcwd.
  split; [|split; [|split; [|split]]].
  - intros path. split; [reflexivity|now apply abspath_canonical].
  - intros q Hq. cbn [safe_path]. now rewrite abspath_of_canonical.
  - intros request data mtime Hres.
    exact (read_file_regular None cwd codecs_lookup fs request _ data mtime
             eq_refl Hres).
  - intros request st entries Hres Hwf.
    set (top := abspath cwd (FileListRequest.path request)) in *.
    destruct (well_formed_names _ _ Hwf) as (Hdistinct & Hvalid).
    rewrite (list_files_of_collect cwd validate_modified fs None request top _
               eq_refl Hres).
    destruct (FileListRequest.recursive request) as [[|]|] eqn:Hrec.
    + destruct (collect_files_recursive_cases cwd validate_modified fs top st
                  entries Hres Hwf) as [(infos & -> & Hperm) | (-> & Hrej)];
        cbn [bind except_Exception]; [left|right; now split].
      exists infos. split; [reflexivity|]. split; [|split].
      * intros info Hin. apply in_map_iff in Hin as (e & <- & He).
        apply (Permutation_in _ (Permutation_sym Hperm)).
        unfold entry_info. apply in_map. cbn [descendants].
        apply in_flat_map. exists e. split; [exact He|now left].
      * intros H. now elim H.
      * intros _. exact Hperm.
    + destruct (collect_files_flat_cases cwd validate_modified fs top st entries
                  (Some false) Hres Hdistinct Hvalid)
        as [-> | (-> & e & He & Hrej)]; [discriminate| |];
        cbn [bind except_Exception]; [left|right].
      * eexists. split; [reflexivity|]. split; [apply incl_refl|].
        split; [reflexivity|discriminate].
      * split; [reflexivity|]. exists (join top (fst e), fst e, snd e).
        split; [|exact Hrej]. cbn [descendants]. apply in_flat_map.
        exists e. split; [exact He|now left].
    + destruct (collect_files_flat_cases cwd validate_modified fs top st entries
                  None Hres Hdistinct Hvalid)
        as [-> | (-> & e & He & Hrej)]; [discriminate| |];
        cbn [bind except_Exception]; [left|right].
      * eexists. split; [reflexivity|]. split; [apply incl_refl|].
        split; [reflexivity|discriminate].
      * split; [reflexivity|]. exists (join top (fst e), fst e, snd e).
        split; [|exact Hrej]. cbn [descendants]. apply in_flat_map.
        exists e. split; [exact He|now left].
  - apply no_root_never_forbidden.
Qed.

Lemma safe_path_no_root_passthrough_witness :
  safe_path None (lit "/srv") (lit "../data2/./secret")
  = Return (lit "/data2/secret")
  /\ safe_path None (lit "/srv") (lit "/data2/secret")
     = Return (lit "/data2/secret")
  /\ read_file None (lit "/srv") builtin_codecs sample_fs
       {| FileRequest.path := lit "../data2/./secret";
          FileRequest.encoding := None |}
     = Return {| FileContentResponse.content := lit "top secret";
                 FileContentResponse.encoding := lit "utf-8" |}.
Proof.
  destruct (safe_path_no_root_passthrough (lit "/srv") builtin_codecs
              coerce_number sample_fs eq_refl)
    as (Hguard & Hsame & Hread & _).
  split; [exact (proj1 (Hguard (lit "../data2/./secret")))|].
  split.
  - apply Hsame. exists 1%nat, [lit "data2"; lit "secret"].
    split; [now left|]. split; reflexivity.
  - exact (Hread {| FileRequest.path := lit "../data2/./secret";
                    FileRequest.encoding := None |}
             (list_byte_of_string "top secret") 121%Z eq_refl).
Defined.
